(** * A shallow embedding of the multi-agent orchestration engine

    The development follows the TypeScript sources:
    - [agents/rag-agent.ts]         ([queryRAG]),
    - [agents/delegating-agent.ts]  ([delegatingNode], [chartToolNode],
      [ragAgentNode], [aggregatorNode] and the LangGraph workflow),
    - [index.ts]                    ([runQuery]).

    JavaScript strings are modelled as lists of code units; a code unit is
    an [ascii], read as a Latin-1 code point.  Exceptions are modelled by
    the error monad [Exc]; the external collaborators (language models,
    embedding service, document store, chart generator) are the fields of
    an environment record [Env]. *)

From Stdlib Require Import Ascii String DecimalString.
From Stdlib Require Import ZArith NArith Lia Bool Arith List.
From Stdlib Require Import Sorting.Sorted Sorting.Permutation.
From Stdlib Require Import Floats.SpecFloat.
Import ListNotations.

Set Implicit Arguments.

(* ===================================================================== *)
(** ** JavaScript strings *)
(* ===================================================================== *)

Definition jsstring := list ascii.

(** String literals of the source. *)
Definition lit (s : string) : jsstring := list_ascii_of_string s.

Definition code (c : ascii) : N := N_of_ascii c.

(** [\d] *)
Definition is_digit (c : ascii) : bool :=
  ((48 <=? code c) && (code c <=? 57))%N.

(** [\s], and the characters removed by [String.prototype.trim]:
    TAB, LF, VT, FF, CR, SPACE and NBSP (the members of WhiteSpace and
    LineTerminator below U+0100). *)
Definition is_space (c : ascii) : bool :=
  (((9 <=? code c) && (code c <=? 13)) || (code c =? 32) || (code c =? 160))%N.

(** LineTerminator: what [.] does not match. *)
Definition is_line_terminator (c : ascii) : bool :=
  ((code c =? 10) || (code c =? 13))%N.

(** [String.prototype.toLowerCase] on Latin-1 code units. *)
Definition lower_char (c : ascii) : ascii :=
  let n := code c in
  if (((65 <=? n) && (n <=? 90)) || ((192 <=? n) && (n <=? 214))
      || ((216 <=? n) && (n <=? 222)))%N
  then ascii_of_N (n + 32) else c.

Definition toLowerCase (s : jsstring) : jsstring := map lower_char s.

Definition jsstring_eqb (a b : jsstring) : bool :=
  if list_eq_dec ascii_dec a b then true else false.

(** Truthiness of a string: the empty string is the only falsy one. *)
Definition truthy (s : jsstring) : bool :=
  match s with [] => false | _ :: _ => true end.

(** [Array.prototype.join]. *)
Fixpoint join (sep : jsstring) (l : list jsstring) : jsstring :=
  match l with
  | [] => []
  | [x] => x
  | x :: t => x ++ sep ++ join sep t
  end.

(** [trimStart], [trimEnd] and [trim]. *)
Fixpoint trimStart (s : jsstring) : jsstring :=
  match s with
  | c :: t => if is_space c then trimStart t else s
  | [] => []
  end.

Definition trimEnd (s : jsstring) : jsstring := rev (trimStart (rev s)).

Definition trim (s : jsstring) : jsstring := trimStart (trimEnd s).

(** The order used by [Array.prototype.sort] without a comparator on
    strings: lexicographic on code units, a proper prefix first. *)
Fixpoint str_compare (a b : jsstring) : comparison :=
  match a, b with
  | [], [] => Eq
  | [], _ :: _ => Lt
  | _ :: _, [] => Gt
  | x :: a', y :: b' =>
      match N.compare (code x) (code y) with
      | Eq => str_compare a' b'
      | c => c
      end
  end.

Definition str_leb (a b : jsstring) : bool :=
  match str_compare a b with Gt => false | _ => true end.

Definition str_lt (a b : jsstring) : Prop := str_compare a b = Lt.

(* ===================================================================== *)
(** ** Exceptions *)
(* ===================================================================== *)

(** An exception value; only its message is kept. *)
Record Error := mkError { message : jsstring }.

Inductive Exc (A : Type) : Type :=
| Ret (a : A)
| Throw (e : Error).
Arguments Ret {A} a.
Arguments Throw {A} e.

Definition bind {A B} (m : Exc A) (f : A -> Exc B) : Exc B :=
  match m with
  | Ret a => f a
  | Throw e => Throw e
  end.

(** [try { m } catch (e) { h e }] *)
Definition try_catch {A} (m : Exc A) (h : Error -> Exc A) : Exc A :=
  match m with
  | Ret a => Ret a
  | Throw e => h e
  end.

Declare Scope exc_scope.
Delimit Scope exc_scope with exc.
Notation "x <- m ;; k" := (bind m (fun x => k))
  (at level 61, m at next level, right associativity) : exc_scope.

(* ===================================================================== *)
(** ** Regular expressions *)
(* ===================================================================== *)

Module Regex.

(** The fragment of ECMAScript patterns used by the source: literals,
    character classes, sequence, disjunction, greedy [*] and [+], and
    capturing groups. *)
Inductive regex : Type :=
| Eps
| Chr (c : ascii)
| Cls (p : ascii -> bool)
| Seq (r1 r2 : regex)
| Alt (r1 r2 : regex)
| Star (r : regex)
| Grp (n : nat) (r : regex).

Definition Plus (r : regex) : regex := Seq r (Star r).

(** [.] *)
Definition Any : regex := Cls (fun c => negb (is_line_terminator c)).

Fixpoint Lit (s : jsstring) : regex :=
  match s with
  | [] => Eps
  | c :: t => Seq (Chr c) (Lit t)
  end.

Definition Str (s : string) : regex := Lit (lit s).

(** [r1|r2|...|rn] *)
Fixpoint Alts (r : regex) (rs : list regex) : regex :=
  match rs with
  | [] => r
  | r' :: rs' => Alt r (Alts r' rs')
  end.

Definition caps := list (nat * jsstring).

Fixpoint lookup (n : nat) (cs : caps) : option jsstring :=
  match cs with
  | [] => None
  | (m, w) :: t => if Nat.eqb n m then Some w else lookup n t
  end.

Section Matcher.
Variable R : Type.

(** The backtracking matcher of the ECMAScript specification, in
    continuation-passing style: [mtch r s cs k] tries the ways [r] can
    match a prefix of [s], in priority order, and returns the first
    result accepted by the continuation [k].  An iteration of [*] that
    consumes nothing is rejected, as RepeatMatcher does. *)
Fixpoint mtch (r : regex) (s : jsstring) (cs : caps)
         (k : jsstring -> caps -> option R) {struct r} : option R :=
  match r with
  | Eps => k s cs
  | Chr c =>
      match s with
      | a :: t => if Ascii.eqb a c then k t cs else None
      | [] => None
      end
  | Cls p =>
      match s with
      | a :: t => if p a then k t cs else None
      | [] => None
      end
  | Seq r1 r2 => mtch r1 s cs (fun s1 cs1 => mtch r2 s1 cs1 k)
  | Alt r1 r2 =>
      match mtch r1 s cs k with
      | Some x => Some x
      | None => mtch r2 s cs k
      end
  | Star r1 =>
      (fix loop (fuel : nat) (s : jsstring) (cs : caps) {struct fuel}
         : option R :=
         match fuel with
         | O => k s cs
         | S f =>
             match mtch r1 s cs
                     (fun s1 cs1 =>
                        if length s1 <? length s then loop f s1 cs1
                        else None) with
             | Some x => Some x
             | None => k s cs
             end
         end) (length s) s cs
  | Grp n r1 =>
      mtch r1 s cs
        (fun s1 cs1 => k s1 ((n, firstn (length s - length s1) s) :: cs1))
  end.
End Matcher.

(** The result of [RegExp.prototype.exec]: the index of the match, the
    matched text (element 0) and the captures. *)
Record MatchResult := mkMatch {
  index : nat;
  matched : jsstring;
  groups : caps
}.

Definition match_here (r : regex) (s : jsstring) : option (jsstring * caps) :=
  mtch r s [] (fun s1 cs1 => Some (s1, cs1)).

(** [exec] of a pattern without the [g] or [y] flag: the leftmost start
    index at which the matcher succeeds. *)
Fixpoint exec_from (r : regex) (i : nat) (s : jsstring) {struct s}
  : option MatchResult :=
  match match_here r s with
  | Some (s1, cs1) =>
      Some (mkMatch i (firstn (length s - length s1) s) cs1)
  | None =>
      match s with
      | [] => None
      | _ :: t => exec_from r (S i) t
      end
  end.

Definition exec (r : regex) (s : jsstring) : option MatchResult :=
  exec_from r 0 s.

(** [RegExp.prototype.test] *)
Definition test (r : regex) (s : jsstring) : bool :=
  match exec r s with Some _ => true | None => false end.

(** [m[n]] for [n >= 1]; the empty string stands for [undefined], which
    none of the patterns below can produce for a group that is read. *)
Definition group (n : nat) (m : MatchResult) : jsstring :=
  match lookup n (groups m) with Some w => w | None => [] end.

(** Declarative reading of the matcher: [M r s s' cs cs'] when [r] matches
    the prefix of [s] that ends where [s'] starts, taking the captures
    from [cs] to [cs']. *)
Inductive M : regex -> jsstring -> jsstring -> caps -> caps -> Prop :=
| M_Eps s cs : M Eps s s cs cs
| M_Chr c s cs : M (Chr c) (c :: s) s cs cs
| M_Cls (p : ascii -> bool) a s cs : p a = true -> M (Cls p) (a :: s) s cs cs
| M_Seq r1 r2 s s1 s2 cs cs1 cs2 :
    M r1 s s1 cs cs1 -> M r2 s1 s2 cs1 cs2 -> M (Seq r1 r2) s s2 cs cs2
| M_AltL r1 r2 s s1 cs cs1 : M r1 s s1 cs cs1 -> M (Alt r1 r2) s s1 cs cs1
| M_AltR r1 r2 s s1 cs cs1 : M r2 s s1 cs cs1 -> M (Alt r1 r2) s s1 cs cs1
| M_Star0 r s cs : M (Star r) s s cs cs
| M_StarS r s s1 s2 cs cs1 cs2 :
    M r s s1 cs cs1 -> length s1 < length s ->
    M (Star r) s1 s2 cs1 cs2 -> M (Star r) s s2 cs cs2
| M_Grp n r s s1 cs cs1 :
    M r s s1 cs cs1 ->
    M (Grp n r) s s1 cs ((n, firstn (length s - length s1) s) :: cs1).

End Regex.

(* ===================================================================== *)
(** ** Numbers *)
(* ===================================================================== *)

Module JSNumber.

(** The Number type: IEEE-754 binary64, with the operations of the
    standard library's executable specification of floating point. *)
Definition number := spec_float.

Definition prec : Z := 53.
Definition emax : Z := 1024.

Definition NaN : number := S754_nan.
Definition Infinity : number := S754_infinity false.

(** The Number value for an integer (round to nearest, ties to even). *)
Definition of_Z (z : Z) : number := binary_normalize prec emax z 0 false.

Definition add (x y : number) : number := SFadd prec emax x y.
Definition sub (x y : number) : number := SFsub prec emax x y.
Definition mul (x y : number) : number := SFmul prec emax x y.
Definition div (x y : number) : number := SFdiv prec emax x y.

(** The mathematical value of a run of decimal digits. *)
Fixpoint digits_value_from (acc : Z) (s : jsstring) : Z :=
  match s with
  | [] => acc
  | c :: t => digits_value_from (10 * acc + (Z.of_N (code c) - 48)) t
  end.

Definition digits_value (s : jsstring) : Z := digits_value_from 0 s.

Fixpoint leading_digits (s : jsstring) : jsstring :=
  match s with
  | c :: t => if is_digit c then c :: leading_digits t else []
  | [] => []
  end.

(** [parseFloat], on the literals the source gives it: the captures of
    [(\d+)].  Only the DecimalDigits form of a literal is interpreted: the
    leading run of digits is read, and a string without one parses to
    NaN. *)
Definition parseFloat (s : jsstring) : number :=
  match leading_digits s with
  | [] => NaN
  | ds => of_Z (digits_value ds)
  end.

(** *** Number::toString, radix 10 *)

Definition decimal (n : Z) : jsstring :=
  lit (NilZero.string_of_uint (N.to_uint (Z.to_N n))).

(** A positive value as a fraction [vn / vd]. *)
Definition frac_of (m : positive) (e : Z) : Z * Z :=
  match e with
  | Zneg p => (Zpos m, 2 ^ Zpos p)%Z
  | _ => (Zpos m * 2 ^ e, 1)%Z
  end.

(** [vn / vd / 10^t] as a fraction, for any integer [t]. *)
Definition scale10 (v : Z * Z) (t : Z) : Z * Z :=
  let '(vn, vd) := v in
  match t with
  | Zneg p => (vn * 10 ^ Zpos p, vd)%Z
  | _ => (vn, vd * 10 ^ t)%Z
  end.

(** [10^j <= v] *)
Definition ge_pow10 (v : Z * Z) (j : Z) : bool :=
  let '(a, b) := scale10 v j in (b <=? a)%Z.

(** The integer [n] with [10^(n-1) <= v < 10^n], searched downwards from
    [j + 1]. *)
Fixpoint magnitude_from (fuel : nat) (j : Z) (v : Z * Z) : Z :=
  match fuel with
  | O => j + 1
  | S f => if ge_pow10 v j then j + 1 else magnitude_from f (j - 1) v
  end%Z.

(** The search starts just above the decimal exponent estimated from the
    binary one ([log10 2] is about [0.30103]). *)
Definition magnitude (v : Z * Z) : Z :=
  let '(vn, vd) := v in
  let est := ((Z.log2 vn - Z.log2 vd) * 30103 / 100000)%Z in
  magnitude_from 8 (est + 2) v.

(** The Number value for [s * 10^t]. *)
Definition number_of_decimal (s : Z) (t : Z) : number :=
  match s with
  | Zpos p =>
      match t with
      | Zneg q =>
          SFdiv prec emax (S754_finite false p 0)
                (S754_finite false (Z.to_pos (10 ^ Zpos q)) 0)
      | _ => of_Z (s * 10 ^ t)
      end
  | _ => of_Z s
  end.

Definition number_eqb (x y : number) : bool :=
  match x, y with
  | S754_finite sx mx ex, S754_finite sy my ey =>
      Bool.eqb sx sy && Pos.eqb mx my && Z.eqb ex ey
  | S754_zero sx, S754_zero sy => Bool.eqb sx sy
  | S754_infinity sx, S754_infinity sy => Bool.eqb sx sy
  | S754_nan, S754_nan => true
  | _, _ => false
  end.

(** For a digit count [k] and an exponent [n]: an integer [s] with
    [10^(k-1) <= s < 10^k] whose value [s * 10^(n-k)] is the Number [x],
    when there is one; of two, the one closer to [x], the even one on a
    tie. *)
Definition candidate (x : number) (v : Z * Z) (k n : Z) : option Z :=
  let '(a, b) := scale10 v (n - k) in
  let lo := (a / b)%Z in
  let r := (a mod b)%Z in
  let hi := (lo + 1)%Z in
  let ok s :=
    ((10 ^ (k - 1) <=? s) && (s <? 10 ^ k))%Z
    && number_eqb (number_of_decimal s (n - k)) x in
  match ok lo, ok hi with
  | true, true =>
      match (2 * r ?= b)%Z with
      | Lt => Some lo
      | Gt => Some hi
      | Eq => if Z.even lo then Some lo else Some hi
      end
  | true, false => Some lo
  | false, true => Some hi
  | false, false => None
  end.

(** The least [k], with its [s] and [n], of step 5 of Number::toString. *)
Fixpoint shortest_from (fuel : nat) (k : Z) (x : number) (v : Z * Z) (n0 : Z)
  : Z * Z * Z :=
  match fuel with
  | O => (n0, k, 0%Z)
  | S f =>
      match candidate x v k n0 with
      | Some s => (n0, k, s)
      | None =>
          match candidate x v k (n0 + 1) with
          | Some s => ((n0 + 1)%Z, k, s)
          | None => shortest_from f (k + 1) x v n0
          end
      end
  end.

Definition zeros (n : Z) : jsstring := repeat "0"%char (Z.to_nat n).

(** Steps 6 to 10 of Number::toString. *)
Definition format_decimal (n k s : Z) : jsstring :=
  let ds := decimal s in
  if ((k <=? n) && (n <=? 21))%Z then ds ++ zeros (n - k)
  else if ((0 <? n) && (n <=? 21))%Z then
    firstn (Z.to_nat n) ds ++ lit "." ++ skipn (Z.to_nat n) ds
  else if ((-6 <? n) && (n <=? 0))%Z then
    lit "0." ++ zeros (- n) ++ ds
  else
    let e := (n - 1)%Z in
    let sign := if (e <? 0)%Z then lit "-" else lit "+" in
    match ds with
    | [d] => [d] ++ lit "e" ++ sign ++ decimal (Z.abs e)
    | d :: rest => [d] ++ lit "." ++ rest ++ lit "e" ++ sign ++ decimal (Z.abs e)
    | [] => []
    end.

Definition positive_to_string (m : positive) (e : Z) : jsstring :=
  let x := S754_finite false m e in
  let v := frac_of m e in
  let '(n, k, s) := shortest_from 17 1 x v (magnitude v) in
  format_decimal n k s.

(** What a template literal makes of a Number. *)
Definition toString (x : number) : jsstring :=
  match x with
  | S754_nan => lit "NaN"
  | S754_zero _ => lit "0"
  | S754_infinity false => lit "Infinity"
  | S754_infinity true => lit "-Infinity"
  | S754_finite false m e => positive_to_string m e
  | S754_finite true m e => lit "-" ++ positive_to_string m e
  end.

End JSNumber.

(* ===================================================================== *)
(** ** Insertion-ordered maps and sets *)
(* ===================================================================== *)

(** [Map<string, V>]: iteration follows the order in which keys were first
    set; setting a key that is present keeps its place. *)
Module JSMap.
Section WithValue.
Variable V : Type.

Definition t := list (jsstring * V).

Definition empty : t := [].

Fixpoint get (k : jsstring) (m : t) : option V :=
  match m with
  | [] => None
  | (k', v) :: m' => if jsstring_eqb k k' then Some v else get k m'
  end.

Definition has (k : jsstring) (m : t) : bool :=
  match get k m with Some _ => true | None => false end.

Fixpoint set (k : jsstring) (v : V) (m : t) : t :=
  match m with
  | [] => [(k, v)]
  | (k', v') :: m' =>
      if jsstring_eqb k k' then (k', v) :: m' else (k', v') :: set k v m'
  end.

Definition entries (m : t) : list (jsstring * V) := m.
Definition keys (m : t) : list jsstring := map fst m.
End WithValue.
End JSMap.

(** [Set<string>], in insertion order. *)
Module JSSet.
Definition t := list jsstring.

Definition empty : t := [].

Fixpoint has (x : jsstring) (s : t) : bool :=
  match s with
  | [] => false
  | y :: s' => jsstring_eqb x y || has x s'
  end.

Definition add (x : jsstring) (s : t) : t :=
  if has x s then s else s ++ [x].

Definition elements (s : t) : list jsstring := s.
End JSSet.

(** [Array.prototype.sort] on strings, without a comparator. *)
Fixpoint insert_sorted (x : jsstring) (l : list jsstring) : list jsstring :=
  match l with
  | [] => [x]
  | y :: l' => if str_leb x y then x :: l else y :: insert_sorted x l'
  end.

Fixpoint sort (l : list jsstring) : list jsstring :=
  match l with
  | [] => []
  | x :: l' => insert_sorted x (sort l')
  end.

(* ===================================================================== *)
(** ** Types ([types/index.ts]) and collaborators *)
(* ===================================================================== *)

Record ChartJSToolInput := mkChartInput {
  chartType : jsstring;
  chart_description : jsstring
}.

(** [chartConfig] is opaque to the orchestrator. *)
Record ChartJSToolOutput := mkChartOutput {
  type : jsstring;
  chartConfig : jsstring;
  description : jsstring
}.

Record RAGAgentInput := mkRAGInput {
  query : jsstring;
  tenant : option jsstring;
  topK : option nat
}.

Record Reference := mkReference {
  fileId : jsstring;
  pages : list jsstring
}.

(** A retrieved object: [Record<string, any> & Metadata].  [pageNumber]
    may be missing, which the source covers with [|| []]. *)
Record Hit := mkHit {
  hit_fileId : jsstring;
  hit_question : jsstring;
  hit_answer : jsstring;
  hit_pageNumber : option (list jsstring)
}.

Record RAGAgentOutput := mkRAGOutput {
  answer : jsstring;
  references : list Reference;
  rawData : list Hit
}.

Definition Vector := list JSNumber.number.

(** The answer of the GraphQL getter: [results.data.Get[COLLECTION_NAME]]
    is a list, is missing, or [results.data] itself is missing. *)
Inductive GraphQLResponse :=
| NoData
| Data (objects : option (list Hit)).

Record WeaviateObject := mkObject { properties : Hit }.

Record FetchResult := mkFetch { objects : option (list WeaviateObject) }.

(** What the router's language model answered, once [JSON.parse] has read
    it: the two flags as they came, and [directAnswer] at its prompted
    type [string | null]. *)
Inductive jsflag :=
| FlagBool (b : bool)
| FlagOther.

Record RawDecision := mkRaw {
  raw_needsChart : jsflag;
  raw_needsRAG : jsflag;
  raw_directAnswer : option jsstring
}.

(** The external collaborators.  Each call returns or throws.
    - [classify q]: [routingLLM.invoke] on the routing prompt for [q],
      followed by the clean-up of the content and [JSON.parse];
    - [chart_invoke p]: [chartTool.invoke(p)] followed by [JSON.parse];
    - [embedQuery], [nearVector], [fetchObjects]: the embedding service
      and the two searches of the document store, scoped by tenant;
    - [generate p]: [sharedLLM.invoke] on prompt [p], content as text. *)
Record Env := mkEnv {
  classify : jsstring -> Exc RawDecision;
  chart_invoke : ChartJSToolInput -> Exc ChartJSToolOutput;
  embedQuery : jsstring -> Exc Vector;
  nearVector : Vector -> jsstring -> nat -> Exc GraphQLResponse;
  fetchObjects : jsstring -> nat -> Exc FetchResult;
  generate : jsstring -> Exc jsstring
}.

(* ===================================================================== *)
(** ** The retrieval worker ([agents/rag-agent.ts]) *)
(* ===================================================================== *)

Definition nl : ascii := ascii_of_nat 10.

Definition or_empty {A} (o : option (list A)) : list A :=
  match o with Some l => l | None => [] end.

Definition no_information : RAGAgentOutput :=
  mkRAGOutput
    (lit "I couldn't find any relevant information in the documents.") [] [].

Definition retrieval_error : RAGAgentOutput :=
  mkRAGOutput (lit "An error occurred while retrieving information.") [] [].

(** The variables the [forEach] over the hits updates. *)
Record Acc := mkAcc {
  referencesMap : JSMap.t JSSet.t;
  combinedAnswer : jsstring;
  fileIdToIndex : JSMap.t nat;
  fileCounter : nat
}.

Definition acc0 : Acc := mkAcc (JSMap.empty _) [] (JSMap.empty _) 1.

(** [`${fileIdx}`], where [fileIdx] is a count or [undefined]. *)
Definition show_index (i : option nat) : jsstring :=
  match i with
  | Some n => JSNumber.decimal (Z.of_nat n)
  | None => lit "undefined"
  end.

(** [referencesMap.get(fileId)?.add(p)] *)
Definition add_page (f : jsstring) (m : JSMap.t JSSet.t) (p : jsstring)
  : JSMap.t JSSet.t :=
  match JSMap.get f m with
  | Some s => JSMap.set f (JSSet.add p s) m
  | None => m
  end.

(** The body of the [forEach]. *)
Definition visit (a : Acc) (obj : Hit) : Acc :=
  let f := hit_fileId obj in
  let '(idx, counter) :=
    if negb (JSMap.has f (fileIdToIndex a))
    then (JSMap.set f (fileCounter a) (fileIdToIndex a), S (fileCounter a))
    else (fileIdToIndex a, fileCounter a) in
  let fileIdx := JSMap.get f idx in
  let pgs := or_empty (hit_pageNumber obj) in
  let refs :=
    if negb (JSMap.has f (referencesMap a))
    then JSMap.set f JSSet.empty (referencesMap a)
    else referencesMap a in
  let refs' := fold_left (add_page f) pgs refs in
  mkAcc refs'
        (combinedAnswer a ++
           show_index fileIdx ++ lit "- Page " ++ join (lit ", ") pgs
           ++ lit ": " ++ hit_answer obj ++ [nl; nl])
        idx counter.

Definition make_reference (e : jsstring * JSSet.t) : Reference :=
  mkReference (fst e) (sort (JSSet.elements (snd e))).

(** Formatting of a non-empty list of hits. *)
Definition format_hits (objs : list Hit) : RAGAgentOutput :=
  let a := fold_left visit objs acc0 in
  mkRAGOutput (trim (combinedAnswer a))
              (map make_reference (JSMap.entries (referencesMap a)))
              objs.

Definition default_topK : nat := 3.

(** [topK = 3] by default. *)
Definition limit (input : RAGAgentInput) : nat :=
  match topK input with Some n => n | None => default_topK end.

(** The inner [try]: the vector search, and the listing of the tenant's
    objects when it throws. *)
Definition search (env : Env) (vector : Vector) (tn : jsstring) (k : nat)
  : Exc GraphQLResponse :=
  try_catch (nearVector env vector tn k)
    (fun _ =>
       bind (fetchObjects env tn k) (fun fetchResult =>
       Ret (Data (Some (map properties (or_empty (objects fetchResult))))))).

(** The body of the outer [try]. *)
Definition queryRAG_try (env : Env) (input : RAGAgentInput)
  : Exc RAGAgentOutput :=
  match tenant input with
  | None | Some [] =>
      Throw (mkError (lit "Tenant is required for multi-tenant collection."))
  | Some tn =>
      bind (embedQuery env (query input)) (fun vector =>
      bind (search env vector tn (limit input)) (fun results =>
      match results with
      | NoData =>
          Throw (mkError (lit "Cannot read properties of undefined"))
      | Data o =>
          let objs := or_empty o in
          match objs with
          | [] => Ret no_information
          | _ :: _ => Ret (format_hits objs)
          end
      end))
  end.

Definition queryRAG (env : Env) (input : RAGAgentInput)
  : Exc RAGAgentOutput :=
  try_catch (queryRAG_try env input) (fun _ => Ret retrieval_error).

(* ===================================================================== *)
(** ** The orchestrator ([agents/delegating-agent.ts]) *)
(* ===================================================================== *)

(** An entry of [allData]. *)
Inductive Payload :=
| ChartPayload (c : ChartJSToolOutput)
| ReferenceListPayload (l : list Reference).

(** [AgentStateAnnotation]: [messages] and [allData] are reduced by
    concatenation, the other channels keep the last value written. *)
Record GraphState := mkState {
  userQuery : jsstring;
  messages : list jsstring;
  needsChart : bool;
  needsRAG : bool;
  state_tenant : option jsstring;
  chartResult : option ChartJSToolOutput;
  ragResult : option RAGAgentOutput;
  finalAnswer : jsstring;
  allData : list Payload
}.

(** What a node returns: the channels it writes. *)
Record Update := mkUpdate {
  set_needsChart : option bool;
  set_needsRAG : option bool;
  set_chartResult : option ChartJSToolOutput;
  set_ragResult : option RAGAgentOutput;
  set_finalAnswer : option jsstring;
  add_allData : option (list Payload)
}.

(** [{}] *)
Definition no_update : Update := mkUpdate None None None None None None.

Definition last_value {A} (old : A) (w : option A) : A :=
  match w with Some v => v | None => old end.

Definition apply_update (st : GraphState) (u : Update) : GraphState :=
  mkState (userQuery st) (messages st)
          (last_value (needsChart st) (set_needsChart u))
          (last_value (needsRAG st) (set_needsRAG u))
          (state_tenant st)
          (match set_chartResult u with Some c => Some c | None => chartResult st end)
          (match set_ragResult u with Some r => Some r | None => ragResult st end)
          (last_value (finalAnswer st) (set_finalAnswer u))
          (match add_allData u with Some y => allData st ++ y | None => allData st end).

Import Regex.

Definition is_operator (c : ascii) : bool :=
  ((code c =? 43) || (code c =? 45) || (code c =? 42) || (code c =? 47))%N.

Definition ws_plus : regex := Plus (Cls is_space).
Definition ws_star : regex := Star (Cls is_space).

(** [/chart|graph|visuali[sz]e|plot|bar|line|pie|doughnut|show\s+me\s+a\s+(chart|graph)/] *)
Definition chartKeywords : regex :=
  Alts (Str "chart")
    [ Str "graph";
      Seq (Str "visuali")
          (Seq (Cls (fun c => ((code c =? 115) || (code c =? 122))%N)) (Str "e"));
      Str "plot"; Str "bar"; Str "line"; Str "pie"; Str "doughnut";
      Seq (Str "show") (Seq ws_plus (Seq (Str "me") (Seq ws_plus
        (Seq (Str "a") (Seq ws_plus
          (Grp 1 (Alt (Str "chart") (Str "graph"))))))))].

(** [/(\d+)\s*[\+\-\*\/]\s*(\d+)/] *)
Definition mathPattern : regex :=
  Seq (Grp 1 (Plus (Cls is_digit)))
    (Seq ws_star (Seq (Cls is_operator)
      (Seq ws_star (Grp 2 (Plus (Cls is_digit)))))).

(** [/(what\s+(is|are|was|were)|how\s+(do|does|did)|tell\s+me\s+about)\s+.*(system|requirement|document|policy|authentication|safety|concern|driver|cost)/] *)
Definition ragKeywords : regex :=
  Seq (Grp 1 (Alts
         (Seq (Str "what") (Seq ws_plus
            (Grp 2 (Alts (Str "is") [Str "are"; Str "was"; Str "were"]))))
         [ Seq (Str "how") (Seq ws_plus
             (Grp 3 (Alts (Str "do") [Str "does"; Str "did"])));
           Seq (Str "tell") (Seq ws_plus (Seq (Str "me") (Seq ws_plus
             (Str "about"))))]))
    (Seq ws_plus (Seq (Star Any)
      (Grp 4 (Alts (Str "system")
         [Str "requirement"; Str "document"; Str "policy";
          Str "authentication"; Str "safety"; Str "concern"; Str "driver";
          Str "cost"])))).

(** [/mentioned\s+in|from\s+the\s+document|in\s+the\s+documentation/] *)
Definition documentKeywords : regex :=
  Alts (Seq (Str "mentioned") (Seq ws_plus (Str "in")))
    [ Seq (Str "from") (Seq ws_plus (Seq (Str "the") (Seq ws_plus
        (Str "document"))));
      Seq (Str "in") (Seq ws_plus (Seq (Str "the") (Seq ws_plus
        (Str "documentation"))))].

(** [/and\s+explain|explain\s+the/] *)
Definition explainPattern : regex :=
  Alt (Seq (Str "and") (Seq ws_plus (Str "explain")))
      (Seq (Str "explain") (Seq ws_plus (Str "the"))).

(** [/[\+\-\*\/]/] *)
Definition operatorPattern : regex := Cls is_operator.

(** The [switch] on the operator; [result] starts at [0]. *)
Definition apply_operator (operator : option jsstring)
           (num1 num2 : JSNumber.number) : JSNumber.number :=
  match operator with
  | Some [c] =>
      if (code c =? 43)%N then JSNumber.add num1 num2
      else if (code c =? 45)%N then JSNumber.sub num1 num2
      else if (code c =? 42)%N then JSNumber.mul num1 num2
      else if (code c =? 47)%N then JSNumber.div num1 num2
      else JSNumber.of_Z 0
  | _ => JSNumber.of_Z 0
  end.

(** [mathMatch[0].match(/[\+\-\*\/]/)?.[0]] *)
Definition operator_of (m : MatchResult) : option jsstring :=
  option_map matched (exec operatorPattern (matched m)).

(** The decision of a router path. *)
Definition decision (chart rag : bool) (direct : jsstring) : Update :=
  mkUpdate (Some chart) (Some rag) None None (Some direct) None.

(** The [catch] branch of the router: keyword-based routing on the
    lower-cased query. *)
Definition keyword_fallback (query : jsstring) : Update :=
  let needsChart := test chartKeywords query in
  let needsRAG :=
    (test ragKeywords query || test documentKeywords query
     || test explainPattern query) && negb (test mathPattern query) in
  let mathMatch := exec mathPattern query in
  let directAnswer :=
    match mathMatch with
    | Some m =>
        if negb needsChart && negb needsRAG then
          let num1 := JSNumber.parseFloat (group 1 m) in
          let num2 := JSNumber.parseFloat (group 2 m) in
          let operator := operator_of m in
          let result := apply_operator operator num1 num2 in
          lit "The answer is " ++ JSNumber.toString result ++ lit "."
        else []
    | None => []
    end in
  decision needsChart needsRAG directAnswer.

(** Node 1. *)
Definition delegatingNode (env : Env) (state : GraphState) : Exc Update :=
  let query := toLowerCase (userQuery state) in
  try_catch
    (bind (classify env (userQuery state)) (fun d =>
       match raw_needsChart d, raw_needsRAG d with
       | FlagBool c, FlagBool r =>
           Ret (decision c r
                  (match raw_directAnswer d with Some a => a | None => [] end))
       | _, _ => Throw (mkError (lit "Invalid decision structure from LLM"))
       end))
    (fun _ => Ret (keyword_fallback query)).

(** Node 2.  The generator call is not guarded. *)
Definition chartToolNode (env : Env) (state : GraphState) : Exc Update :=
  if negb (needsChart state) then Ret no_update
  else
    let query := toLowerCase (userQuery state) in
    let chartType :=
      if test (Str "line") query then lit "line"
      else if test (Str "pie") query then lit "pie"
      else if test (Str "doughnut") query then lit "doughnut"
      else lit "bar" in
    bind (chart_invoke env (mkChartInput chartType (userQuery state)))
      (fun chartResult =>
         Ret (mkUpdate None None (Some chartResult) None None
                       (Some [ChartPayload chartResult]))).

Definition default_tenant : jsstring := lit "company_a".

(** [state.tenant || "company_a"] *)
Definition tenant_or_default (t : option jsstring) : jsstring :=
  match t with
  | Some (c :: s) => c :: s
  | _ => default_tenant
  end.

Definition rag_placeholder : RAGAgentOutput :=
  mkRAGOutput
    (lit "I encountered an error while searching for document information.")
    [] [].

(** Node 3. *)
Definition ragAgentNode (env : Env) (state : GraphState) : Exc Update :=
  if negb (needsRAG state) then Ret no_update
  else
    try_catch
      (bind (queryRAG env
               (mkRAGInput (userQuery state)
                           (Some (tenant_or_default (state_tenant state)))
                           None))
         (fun ragResult =>
            Ret (mkUpdate None None None (Some ragResult) None
                          (Some [ReferenceListPayload (references ragResult)]))))
      (fun _ =>
         Ret (mkUpdate None None None (Some rag_placeholder) None None)).

Definition dq : ascii := ascii_of_nat 34.

Definition synthesis_apology : jsstring :=
  lit "I'm sorry, I encountered an error while synthesizing your answer. However, I have gathered the requested data.".

Definition contextualPrompt (state : GraphState) : jsstring :=
  lit "You are a helpful assistant. Based on the following information, answer the user's query: "
    ++ [dq] ++ userQuery state ++ [dq; nl; nl]
    ++ match ragResult state with
       | Some r => lit "Document Information:" ++ [nl] ++ answer r ++ [nl; nl]
       | None => []
       end
    ++ match chartResult state with
       | Some c =>
           lit "I have also generated a " ++ type c ++ lit " chart for "
             ++ [dq] ++ description c ++ [dq] ++ lit "." ++ [nl; nl]
       | None => []
       end.

(** Node 4. *)
Definition aggregatorNode (env : Env) (state : GraphState) : Exc Update :=
  if truthy (finalAnswer state) then Ret no_update
  else
    try_catch
      (bind (generate env (contextualPrompt state)) (fun response =>
         Ret (mkUpdate None None None None (Some response) None)))
      (fun _ =>
         Ret (mkUpdate None None None None (Some synthesis_apology) None)).

(** *** The workflow *)

Inductive Node := Delegator | Chart | Rag | Aggregator.

Definition Node_eqb (a b : Node) : bool :=
  match a, b with
  | Delegator, Delegator | Chart, Chart | Rag, Rag
  | Aggregator, Aggregator => true
  | _, _ => false
  end.

Definition node_fn (n : Node) : Env -> GraphState -> Exc Update :=
  match n with
  | Delegator => delegatingNode
  | Chart => chartToolNode
  | Rag => ragAgentNode
  | Aggregator => aggregatorNode
  end.

(** The conditional edges out of the delegator; [[]] is [END]. *)
Definition route (state : GraphState) : list Node :=
  if truthy (finalAnswer state) then []
  else if needsChart state && needsRAG state then [Chart; Rag]
  else if needsChart state then [Chart]
  else if needsRAG state then [Rag]
  else [Aggregator].

(** The edges of the graph, read on the state the node has written. *)
Definition edges (state : GraphState) (n : Node) : list Node :=
  match n with
  | Delegator => route state
  | Chart => [Aggregator]
  | Rag => [Aggregator]
  | Aggregator => []
  end.

Fixpoint dedup_nodes (l : list Node) : list Node :=
  match l with
  | [] => []
  | n :: t =>
      if existsb (Node_eqb n) t then dedup_nodes t else n :: dedup_nodes t
  end.

(** One step of the graph: every active node runs on the same state; the
    step fails when a node throws, and the updates are applied together
    otherwise. *)
Fixpoint run_nodes (env : Env) (state : GraphState) (ns : list Node)
  : Exc (list Update) :=
  match ns with
  | [] => Ret []
  | n :: t =>
      match node_fn n env state, run_nodes env state t with
      | Ret u, Ret us => Ret (u :: us)
      | Throw e, _ => Throw e
      | _, Throw e => Throw e
      end
  end.

(** A run: the nodes invoked, the states streamed, and the terminal state
    or the exception that ended the run. *)
Record Run := mkRun {
  trace : list Node;
  emitted : list GraphState;
  outcome : Exc GraphState
}.

Definition recursionLimit : nat := 25.

Fixpoint pregel (fuel : nat) (env : Env) (state : GraphState)
         (active : list Node) (tr : list Node) (em : list GraphState) : Run :=
  match active with
  | [] => mkRun tr em (Ret state)
  | _ :: _ =>
      match fuel with
      | O => mkRun tr em (Throw (mkError (lit "Recursion limit reached")))
      | S f =>
          match run_nodes env state active with
          | Throw e => mkRun (tr ++ active) em (Throw e)
          | Ret us =>
              let state' := fold_left apply_update us state in
              let next :=
                dedup_nodes (flat_map (edges state') active) in
              pregel f env state' next (tr ++ active) (em ++ [state'])
          end
      end
  end.

(** [graph.stream(initialState, { streamMode: "values" })] *)
Definition run_graph (env : Env) (initialState : GraphState) : Run :=
  pregel recursionLimit env initialState [Delegator] [] [initialState].

(** *** [runQuery] ([index.ts]) *)

Record StreamingResponse := mkResponse {
  response_answer : jsstring;
  response_data : list Payload
}.

Definition initial_state (q : jsstring) (tenant_arg : option jsstring)
  : GraphState :=
  mkState q [q] false false
          (Some (match tenant_arg with Some t => t | None => default_tenant end))
          None None [] [].

(** The response [runQuery] prints, or nothing when the graph threw. *)
Definition runQuery (env : Env) (q : jsstring) (tenant_arg : option jsstring)
  : option StreamingResponse :=
  match outcome (run_graph env (initial_state q tenant_arg)) with
  | Ret lastState => Some (mkResponse (finalAnswer lastState) (allData lastState))
  | Throw _ => None
  end.

(* ===================================================================== *)
(** ** Sample collaborators *)
(* ===================================================================== *)

(** The records of [seedData] ([database/weaviate-setup.ts]) and
    collaborators that answer from them, used to run the model. *)
Module Fixtures.

Definition company_a : jsstring := lit "company_a".
Definition company_b : jsstring := lit "company_b".
Definition research_team : jsstring := lit "research_team".

Definition seedData : list (jsstring * Hit) :=
  [ (company_a,
     mkHit (lit "tech_doc_001")
           (lit "What are the system requirements for deployment?")
           (lit "The system requires Node.js 18+, 4GB RAM minimum, and Docker installed. PostgreSQL 14+ is needed for the database.")
           (Some [lit "3"; lit "4"]));
    (company_a,
     mkHit (lit "tech_doc_001")
           (lit "How is authentication handled?")
           (lit "Authentication uses JWT tokens with OAuth2.0 integration. Tokens expire after 24 hours and refresh tokens are valid for 30 days.")
           (Some [lit "12"; lit "13"; lit "14"]));
    (company_b,
     mkHit (lit "financial_report_q3")
           (lit "What was the revenue for Q3 2024?")
           (lit "Q3 2024 revenue reached $4.2 million, representing a 23% increase year-over-year driven by enterprise subscription growth.")
           (Some [lit "7"]));
    (company_b,
     mkHit (lit "financial_report_q3")
           (lit "What are the main cost drivers?")
           (lit "Primary costs include cloud infrastructure (35%), personnel (45%), and marketing (20%). R&D investment increased by 15% this quarter.")
           (Some [lit "15"; lit "16"]));
    (research_team,
     mkHit (lit "ai_safety_paper_v2")
           (lit "What are the key AI safety concerns identified?")
           (lit "The paper identifies three critical concerns: alignment issues with human values, potential for unintended behaviors at scale, and challenges in interpretability of large models.")
           (Some [lit "2"; lit "3"; lit "8"])) ].

(** The first [k] records of a tenant. *)
Definition records_of (tn : jsstring) (k : nat) : list Hit :=
  firstn k (map snd (filter (fun r => jsstring_eqb (fst r) tn) seedData)).

Definition quota_exceeded : Error := mkError (lit "429 Too Many Requests").
Definition search_failed : Error := mkError (lit "vector search failed").

Definition mock_chart (p : ChartJSToolInput) : Exc ChartJSToolOutput :=
  Ret (mkChartOutput (chartType p) (lit "{}") (chart_description p)).

(** The router's model is out of quota; everything else answers. *)
Definition env_fallback : Env :=
  mkEnv (fun _ => Throw quota_exceeded)
        mock_chart
        (fun _ => Ret [])
        (fun _ tn k => Ret (Data (Some (records_of tn k))))
        (fun tn k => Ret (mkFetch (Some (map mkObject (records_of tn k)))))
        (fun _ => Ret (lit "Here is what I found.")).

(** As [env_fallback], with an embedding service that throws. *)
Definition env_embed_down : Env :=
  mkEnv (classify env_fallback) mock_chart
        (fun _ => Throw search_failed) (nearVector env_fallback)
        (fetchObjects env_fallback) (generate env_fallback).

(** As [env_fallback], with a vector search that throws: the listing of
    the tenant's objects is used instead. *)
Definition env_vector_down : Env :=
  mkEnv (classify env_fallback) mock_chart
        (embedQuery env_fallback) (fun _ _ _ => Throw search_failed)
        (fetchObjects env_fallback) (generate env_fallback).

(** A store without records. *)
Definition env_empty_store : Env :=
  mkEnv (classify env_fallback) mock_chart
        (embedQuery env_fallback) (fun _ _ _ => Ret (Data (Some [])))
        (fetchObjects env_fallback) (generate env_fallback).

(** The router's model answers a direct question itself. *)
Definition env_direct : Env :=
  mkEnv (fun _ => Ret (mkRaw (FlagBool false) (FlagBool false)
                             (Some (lit "Paris"))))
        mock_chart
        (embedQuery env_fallback) (nearVector env_fallback)
        (fetchObjects env_fallback) (generate env_fallback).

Definition chart_and_rag_query : jsstring :=
  lit "Show me a chart of Q3 revenue and explain the growth drivers".

Definition requirements_query : jsstring :=
  lit "What are the system requirements mentioned in the documentation?".

End Fixtures.

(* ===================================================================== *)
(** * Specifications *)
(* ===================================================================== *)

(** The definitions below are used to state the properties of the model;
    they are not part of the program. *)

(** [retrieves env input hits]: the tenant is given, the embedding is
    obtained, and the search yields [hits], either from the vector search
    or, when that one throws, from the listing of the tenant's objects. *)
Inductive retrieves (env : Env) (input : RAGAgentInput) : list Hit -> Prop :=
| retrieves_primary tn v o :
    tenant input = Some tn -> tn <> [] ->
    embedQuery env (query input) = Ret v ->
    nearVector env v tn (limit input) = Ret (Data o) ->
    retrieves env input (or_empty o)
| retrieves_listing tn v e fr :
    tenant input = Some tn -> tn <> [] ->
    embedQuery env (query input) = Ret v ->
    nearVector env v tn (limit input) = Throw e ->
    fetchObjects env tn (limit input) = Ret fr ->
    retrieves env input (map properties (or_empty (objects fr))).

Definition with_tenant (st : GraphState) (t : option jsstring) : GraphState :=
  mkState (userQuery st) (messages st) (needsChart st) (needsRAG st) t
          (chartResult st) (ragResult st) (finalAnswer st) (allData st).

(** The update of a retrieval node that got a result. *)
Definition rag_update (r : RAGAgentOutput) : Update :=
  mkUpdate None None None (Some r) None
           (Some [ReferenceListPayload (references r)]).

Definition add_all (pgs : list jsstring) (s : JSSet.t) : JSSet.t :=
  fold_left (fun s p => JSSet.add p s) pgs s.

(** The distinct elements of a list, in the order of their first
    occurrence. *)
Fixpoint first_seen (l : list jsstring) : list jsstring :=
  match l with
  | [] => []
  | x :: t => x :: filter (fun y => negb (jsstring_eqb y x)) (first_seen t)
  end.

(** The place of an element in a list, counted from zero. *)
Fixpoint position (f : jsstring) (ks : list jsstring) : option nat :=
  match ks with
  | [] => None
  | k :: t => if jsstring_eqb f k then Some 0 else option_map S (position f t)
  end.

(** The label of a source: one more than its place among the distinct
    sources in first-seen order. *)
Definition label (ks : list jsstring) (f : jsstring) : nat :=
  match position f ks with Some i => S i | None => 0 end.

(** The passage of one hit, as the specification words it: label, pages joined by
    a comma and a space, answer text, and a blank line. *)
Definition passage (ks : list jsstring) (h : Hit) : jsstring :=
  JSNumber.decimal (Z.of_nat (label ks (hit_fileId h)))
    ++ lit "- Page " ++ join (lit ", ") (or_empty (hit_pageNumber h))
    ++ lit ": " ++ hit_answer h ++ [nl; nl].

Definition ids (l : list Hit) : list jsstring := map hit_fileId l.

(** What the loop over the hits has established after the hits [done]. *)
Record Inv (done : list Hit) (a : Acc) : Prop := mkInv {
  inv_keys : JSMap.keys (referencesMap a) = first_seen (ids done);
  inv_pages : forall f s,
    JSMap.get f (referencesMap a) = Some s ->
    NoDup s /\
    forall p, In p s <->
              exists h, In h done /\ hit_fileId h = f /\
                        In p (or_empty (hit_pageNumber h));
  inv_index : forall f,
    JSMap.get f (fileIdToIndex a)
    = option_map S (position f (first_seen (ids done)));
  inv_counter : fileCounter a = S (length (first_seen (ids done)));
  inv_answer :
    combinedAnswer a = concat (map (passage (first_seen (ids done))) done)
}.

Definition positive_number (x : JSNumber.number) : Prop :=
  match x with
  | S754_finite false _ _ | S754_infinity false => True
  | _ => False
  end.

(** The router takes its keyword path when the call to the language model
    throws or the parsed decision lacks a boolean flag. *)
Definition fallback_path (env : Env) (st : GraphState) : Prop :=
  (exists e, classify env (userQuery st) = Throw e) \/
  (exists d, classify env (userQuery st) = Ret d /\
             (raw_needsChart d = FlagOther \/ raw_needsRAG d = FlagOther)).

(** The four operations, by operator character: [+], [-], [*], [/]. *)
Definition arith (op : ascii) (a b : JSNumber.number) : JSNumber.number :=
  if (code op =? 43)%N then JSNumber.add a b
  else if (code op =? 45)%N then JSNumber.sub a b
  else if (code op =? 42)%N then JSNumber.mul a b
  else JSNumber.div a b.

(** No chart keyword and no retrieval phrase in the query. *)
Definition no_keywords (q : jsstring) : Prop :=
  test chartKeywords q = false /\ test ragKeywords q = false /\
  test documentKeywords q = false /\ test explainPattern q = false.

(** Matches of [mathPattern] in sample queries. *)
Definition calculate_query : jsstring := lit "Calculate 15 + 27".

Definition match_15_27 : MatchResult :=
  mkMatch 10 (lit "15 + 27") [(2, lit "27"); (1, lit "15")].

Definition match_5_0 : MatchResult :=
  mkMatch 0 (lit "5 / 0") [(2, lit "0"); (1, lit "5")].

Definition match_0_0 : MatchResult :=
  mkMatch 0 (lit "0/0") [(2, lit "0"); (1, lit "0")].

(* ===================================================================== *)
(** ** The chart generator ([tools/chartjs-tool.ts]) *)
(* ===================================================================== *)

(** [String.prototype.startsWith] and [String.prototype.includes]. *)
Fixpoint startsWith (s p : jsstring) : bool :=
  match p, s with
  | [], _ => true
  | a :: p', b :: s' => Ascii.eqb a b && startsWith s' p'
  | _ :: _, [] => false
  end.

Fixpoint includes (s needle : jsstring) : bool :=
  startsWith s needle
  || match s with
     | [] => false
     | _ :: t => includes t needle
     end.

Module ChartJSTool.

(** The input accepted by the schema; [dataPoints] is optional, and is
    taken at integral values. *)
Record Input := mkInput {
  in_chartType : jsstring;
  in_description : jsstring;
  in_dataPoints : option Z
}.

(** [backgroundColor]: one colour or a list of colours. *)
Inductive Colour :=
| OneColour (c : jsstring)
| Colours (l : list jsstring).

Record Dataset := mkDataset {
  ds_label : jsstring;
  ds_data : list Z;
  backgroundColor : Colour;
  borderColor : jsstring;
  borderWidth : Z
}.

Record ChartConfig := mkConfig {
  cfg_type : jsstring;
  cfg_labels : list jsstring;
  datasets : list Dataset;
  responsive : bool;
  legend_position : jsstring;
  title_display : bool;
  title_text : jsstring
}.

(** The object that [_call] serializes. *)
Record Output := mkOutput {
  out_type : jsstring;
  out_chartConfig : ChartConfig;
  out_description : jsstring
}.

Definition invalid_array_length : Error :=
  mkError (lit "Invalid array length").

(** [Array.from({ length: n }, f)]: a negative length gives no element,
    and a length of [2^32] or more is refused with a [RangeError]. *)
Definition array_from {A} (n : Z) (f : nat -> A) : Exc (list A) :=
  if (2 ^ 32 <=? n)%Z then Throw invalid_array_length
  else Ret (map f (seq 0 (Z.to_nat n))).

Definition palette : list jsstring :=
  [lit "#FF6384"; lit "#36A2EB"; lit "#FFCE56"; lit "#4BC0C0"].

(** [labels], [data] and [datasetLabel].  [random i] stands for the
    [i]-th evaluation of [Math.floor(Math.random() * 100)]. *)
Definition mock_data (random : nat -> Z) (input : Input)
  : Exc (list jsstring * list Z * jsstring) :=
  let d := toLowerCase (in_description input) in
  let dataPoints :=
    match in_dataPoints input with Some n => n | None => 4%Z end in
  if includes d (lit "revenue") || includes d (lit "quarterly") then
    Ret ([lit "Q1"; lit "Q2"; lit "Q3"; lit "Q4"],
         [120000; 150000; 180000; 200000]%Z, lit "Revenue ($)")
  else if includes d (lit "growth") || includes d (lit "trend") then
    Ret ([lit "Jan"; lit "Feb"; lit "Mar"; lit "Apr"; lit "May"; lit "Jun"],
         [10; 25; 45; 30; 55; 78]%Z, lit "Growth (%)")
  else if includes d (lit "share") || includes d (lit "market") then
    Ret ([lit "Product A"; lit "Product B"; lit "Product C"; lit "Others"],
         [40; 30; 20; 10]%Z, lit "Market Share (%)")
  else
    bind (array_from dataPoints
            (fun i => lit "Label " ++ JSNumber.decimal (Z.of_nat (i + 1))))
      (fun labels =>
    bind (array_from dataPoints random)
      (fun data => Ret (labels, data, lit "Value"))).

(** [_call], before [JSON.stringify]. *)
Definition _call (random : nat -> Z) (input : Input) : Exc Output :=
  let chartType := in_chartType input in
  let description := in_description input in
  bind (mock_data random input)
    (fun '(labels, data, datasetLabel) =>
       let chartConfig :=
         mkConfig chartType labels
           [mkDataset datasetLabel data
              (if jsstring_eqb chartType (lit "pie")
                  || jsstring_eqb chartType (lit "doughnut")
               then Colours palette else OneColour (lit "#36A2EB"))
              (lit "#36A2EB") 1]
           true (lit "top") true description in
       Ret (mkOutput chartType chartConfig description)).

(** The values of [z.enum(["bar", "line", "pie", "doughnut"])]. *)
Definition chart_types : list jsstring :=
  [lit "bar"; lit "line"; lit "pie"; lit "doughnut"].

End ChartJSTool.

(* ===================================================================== *)
(** ** The client ([database/weaviate-client.ts]) *)
(* ===================================================================== *)

Module WeaviateClient.

(** [https?:\/\/] *)
Definition protocol : regex :=
  Seq (Str "http") (Seq (Alt (Chr "s"%char) Eps) (Str "://")).

(** [s.replace(/^r/, e)] with [e] the empty string: the pattern can only
    match at the start. *)
Definition remove_at_start (r : regex) (s : jsstring) : jsstring :=
  match match_here r s with
  | Some (rest, _) => rest
  | None => s
  end.

(** [s.replace(/\/$/, e)] with [e] the empty string *)
Definition remove_trailing_slash (s : jsstring) : jsstring :=
  match rev s with
  | c :: r => if Ascii.eqb c "/"%char then rev r else s
  | [] => s
  end.

(** [process.env.WEAVIATE_URL || "http://localhost:8080"] *)
Definition rawUrl (WEAVIATE_URL : option jsstring) : jsstring :=
  match WEAVIATE_URL with
  | Some (c :: s) => c :: s
  | _ => lit "http://localhost:8080"
  end.

Definition sanitizedHost (url : jsstring) : jsstring :=
  remove_trailing_slash (remove_at_start protocol url).

Definition scheme (url : jsstring) : jsstring :=
  if startsWith url (lit "https") then lit "https" else lit "http".

Definition COLLECTION_NAME : jsstring := lit "DocumentQA".

End WeaviateClient.

(* ===================================================================== *)
(** ** Database setup ([database/weaviate-setup.ts]) *)
(* ===================================================================== *)

Module Setup.

(** The calls made to the database and to the embedding service. *)
Inductive Call :=
| ReadyCheck
| Wait
| GetSchema
| DeleteClass (name : jsstring)
| CreateClass (name : jsstring)
| CreateTenants (names : list jsstring)
| Embed (text : jsstring)
| CreateObject (tn : jsstring) (props : Hit) (vector : Vector).

(** The services behind the calls.  [ready_at k] is what
    [isWeaviateReady] returns at its [k]-th call (from zero): [false] when
    the ready check throws.  [schema_classes] is [schema.classes]: the
    names of the classes, or nothing. *)
Record Services := mkServices {
  ready_at : nat -> bool;
  schema_classes : Exc (option (list jsstring));
  delete_class : jsstring -> Exc unit;
  create_class : jsstring -> Exc unit;
  create_tenants : list jsstring -> Exc unit;
  embed_question : jsstring -> Exc Vector;
  create_object : jsstring -> Hit -> Vector -> Exc unit
}.

(** The [while] loop of the health check, entered with [retries] left
    before the [probe]-th ready check: the retries left at its exit and
    the calls made. *)
Fixpoint await_ready (sv : Services) (retries probe : nat)
  : nat * list Call :=
  if ready_at sv probe then (retries, [ReadyCheck])
  else
    match retries with
    | O => (O, [ReadyCheck])
    | S r =>
        let '(remaining, calls) := await_ready sv r (S probe) in
        (remaining, ReadyCheck :: Wait :: calls)
    end.

(** The [for] loop over the records. *)
Fixpoint insert_all (sv : Services) (data : list (jsstring * Hit))
  : list Call * Exc unit :=
  match data with
  | [] => ([], Ret tt)
  | (tn, rest) :: data' =>
      match embed_question sv (hit_question rest) with
      | Throw e => ([Embed (hit_question rest)], Throw e)
      | Ret vector =>
          match create_object sv tn rest vector with
          | Throw e =>
              ([Embed (hit_question rest); CreateObject tn rest vector],
               Throw e)
          | Ret _ =>
              let '(calls, r) := insert_all sv data' in
              (Embed (hit_question rest) :: CreateObject tn rest vector
                 :: calls, r)
          end
      end
  end.

(** [[...new Set(seedData.map(d => d.tenant))]] *)
Definition tenants_of (data : list (jsstring * Hit)) : list jsstring :=
  JSSet.elements
    (fold_left (fun s t => JSSet.add t s) (map fst data) JSSet.empty).

Definition not_responsive : Error :=
  mkError (lit "Weaviate service not responsive after multiple retries.").

(** [setupWeaviate] on the records [data]: the calls made, and whether it
    returned or rethrew. *)
Definition setupWeaviate (sv : Services) (data : list (jsstring * Hit))
  : list Call * Exc unit :=
  let name := WeaviateClient.COLLECTION_NAME in
  let '(retries, health) := await_ready sv 5 0 in
  if Nat.eqb retries 0 then (health, Throw not_responsive)
  else
    match schema_classes sv with
    | Throw e => (health ++ [GetSchema], Throw e)
    | Ret classes =>
        let classExists := existsb (jsstring_eqb name) (or_empty classes) in
        let '(calls1, r1) :=
          if classExists then ([DeleteClass name], delete_class sv name)
          else ([], Ret tt) in
        match r1 with
        | Throw e => (health ++ GetSchema :: calls1, Throw e)
        | Ret _ =>
            match create_class sv name with
            | Throw e =>
                (health ++ GetSchema :: calls1 ++ [CreateClass name], Throw e)
            | Ret _ =>
                let tenants := tenants_of data in
                match create_tenants sv tenants with
                | Throw e =>
                    (health ++ GetSchema :: calls1
                       ++ [CreateClass name; CreateTenants tenants], Throw e)
                | Ret _ =>
                    let '(calls2, r2) := insert_all sv data in
                    (health ++ GetSchema :: calls1
                       ++ [CreateClass name; CreateTenants tenants] ++ calls2,
                     r2)
                end
            end
        end
    end.

End Setup.

(* ===================================================================== *)
(** ** More specifications *)
(* ===================================================================== *)

(** The chart kind chosen by [chartToolNode] for a lower-cased query. *)
Definition chart_kind (query : jsstring) : jsstring :=
  if test (Str "line") query then lit "line"
  else if test (Str "pie") query then lit "pie"
  else if test (Str "doughnut") query then lit "doughnut"
  else lit "bar".

(** What [chartToolNode] gives to the generator. *)
Definition chart_input (state : GraphState) : ChartJSToolInput :=
  mkChartInput (chart_kind (toLowerCase (userQuery state))) (userQuery state).

Definition chart_update (c : ChartJSToolOutput) : Update :=
  mkUpdate None None (Some c) None None (Some [ChartPayload c]).

(** The workers dispatched for a pair of flags. *)
Definition workers_of (chart rag : bool) : list Node :=
  (if chart then [Chart] else []) ++ (if rag then [Rag] else []).

(** The answer the synthesizer writes for a state without one. *)
Definition synthesized (env : Env) (state : GraphState) : jsstring :=
  match generate env (contextualPrompt state) with
  | Ret response => response
  | Throw _ => synthesis_apology
  end.

(** What the retrieval node gives to [queryRAG]. *)
Definition rag_input (state : GraphState) : RAGAgentInput :=
  mkRAGInput (userQuery state)
             (Some (tenant_or_default (state_tenant state))) None.

(** Two environments that answer alike for one tenant. *)
Definition same_for_tenant (env1 env2 : Env) (tn : jsstring) : Prop :=
  (forall q, embedQuery env1 q = embedQuery env2 q) /\
  (forall v k, nearVector env1 v tn k = nearVector env2 v tn k) /\
  (forall k, fetchObjects env1 tn k = fetchObjects env2 tn k).

Definition answer_update (t : jsstring) : Update :=
  mkUpdate None None None None (Some t) None.

(** The state after the workers of a decision have written. *)
Definition after_workers (st1 : GraphState) (c r : bool)
           (ch : ChartJSToolOutput) (rr : RAGAgentOutput) : GraphState :=
  fold_left apply_update
    ((if c then [chart_update ch] else [])
       ++ (if r then [rag_update rr] else [])) st1.

Definition no_chart : ChartJSToolOutput := mkChartOutput [] [] [].

Definition env_synth_down : Env :=
  mkEnv (classify Fixtures.env_fallback) Fixtures.mock_chart
        (embedQuery Fixtures.env_fallback) (nearVector Fixtures.env_fallback)
        (fetchObjects Fixtures.env_fallback)
        (fun _ => Throw Fixtures.quota_exceeded).

Definition pie_of_line_query : jsstring :=
  lit "Draw a PIE chart of the product LINE sales".

(** A store that holds the records of [company_a] only. *)
Definition env_only_company_a : Env :=
  mkEnv (classify Fixtures.env_fallback) Fixtures.mock_chart
        (embedQuery Fixtures.env_fallback)
        (fun _ tn k =>
           if jsstring_eqb tn Fixtures.company_a
           then Ret (Data (Some (Fixtures.records_of tn k)))
           else Ret (Data (Some [])))
        (fun tn k =>
           if jsstring_eqb tn Fixtures.company_a
           then Ret (mkFetch (Some (map mkObject (Fixtures.records_of tn k))))
           else Throw Fixtures.search_failed)
        (generate Fixtures.env_fallback).

(** No keyword of the three mock series in a lower-cased description. *)
Definition plain_description (d : jsstring) : Prop :=
  includes d (lit "revenue") = false /\ includes d (lit "quarterly") = false /\
  includes d (lit "growth") = false /\ includes d (lit "trend") = false /\
  includes d (lit "share") = false /\ includes d (lit "market") = false.

Definition region_input : ChartJSTool.Input :=
  ChartJSTool.mkInput (lit "bar") (lit "Sales by REGION") (Some 3%Z).

Definition ends_with_slash (s : jsstring) : bool :=
  match rev s with
  | c :: _ => Ascii.eqb c "/"%char
  | [] => false
  end.

(** The records of the [CreateObject] calls of a log, in order. *)
Fixpoint object_calls (calls : list Setup.Call) : list (jsstring * Hit) :=
  match calls with
  | [] => []
  | Setup.CreateObject tn props _ :: t => (tn, props) :: object_calls t
  | _ :: t => object_calls t
  end.

Definition is_ready_check (c : Setup.Call) : bool :=
  match c with Setup.ReadyCheck => true | _ => false end.

(** The service answers its sixth ready check, and no earlier one. *)
Definition late_services : Setup.Services :=
  Setup.mkServices (fun k => Nat.eqb k 5) (Ret None)
    (fun _ => Ret tt) (fun _ => Ret tt) (fun _ => Ret tt)
    (fun _ => Ret []) (fun _ _ _ => Ret tt).

(** A ready service with an old class, which rejects the objects of
    [company_b]. *)
Definition picky_services : Setup.Services :=
  Setup.mkServices (fun _ => true)
    (Ret (Some [lit "Other"; WeaviateClient.COLLECTION_NAME]))
    (fun _ => Ret tt) (fun _ => Ret tt) (fun _ => Ret tt)
    (fun _ => Ret [])
    (fun tn _ _ =>
       if jsstring_eqb tn Fixtures.company_b
       then Throw Fixtures.search_failed else Ret tt).

(** A service that is ready at its third check and accepts everything. *)
Definition good_services : Setup.Services :=
  Setup.mkServices (fun k => Nat.leb 2 k)
    (Ret (Some [WeaviateClient.COLLECTION_NAME]))
    (fun _ => Ret tt) (fun _ => Ret tt) (fun _ => Ret tt)
    (fun _ => Ret []) (fun _ _ _ => Ret tt).

(* ===================================================================== *)
(** ** The clean-up of the model's message ([agents/delegating-agent.ts]) *)
(* ===================================================================== *)

(** [s.replace(r, e)] for the empty string [e] and a pattern [r] with the
    [g] flag: every match,
    from left to right, is removed; after an empty match the search moves
    on by one character. *)
Fixpoint remove_all_from (fuel : nat) (r : regex) (s : jsstring) : jsstring :=
  match fuel with
  | O => s
  | S f =>
      let skip :=
        match s with
        | [] => []
        | c :: t => c :: remove_all_from f r t
        end in
      match match_here r s with
      | Some (rest, _) =>
          if length rest <? length s then remove_all_from f r rest else skip
      | None => skip
      end
  end.

Definition remove_all (r : regex) (s : jsstring) : jsstring :=
  remove_all_from (S (length s)) r s.

Definition backticks : jsstring := lit "```".

(** [/```json\s*/g] and [/```\s*/g] *)
Definition fence_json : regex := Seq (Str "```json") ws_star.

Definition fence : regex := Seq (Str "```") ws_star.

(** The text given to [JSON.parse]: the content of the model's message,
    trimmed, and without its code fences when it has any. *)
Definition routing_content (raw : jsstring) : jsstring :=
  let content := trim raw in
  if includes content backticks
  then trim (remove_all fence (remove_all fence_json content))
  else content.

Definition is_backtick (c : ascii) : bool := Ascii.eqb c "`"%char.

(** The usual fenced answer. *)
Definition fenced_answer : jsstring :=
  lit "```json" ++ [nl]
    ++ lit "{needsChart: true}" ++ [nl] ++ lit "```".

(** A pie chart of a description without a keyword of the mock series. *)
Definition pie_input : ChartJSTool.Input :=
  ChartJSTool.mkInput (lit "pie") (lit "Market share") None.

(* ===================================================================== *)
(** ** The generator as the chart worker calls it ([chartToolNode]) *)
(* ===================================================================== *)

Definition schema_mismatch : Error :=
  mkError (lit "Received tool input did not match expected schema").

(** [JSON.parse(await chartTool.invoke(params))] for the [ChartJSTool] that
    [chartToolNode] builds.  The tool checks [params] against its schema,
    [_call] runs on them (the node gives no [dataPoints]), and the node
    reads back the object that [_call] serialized.  The orchestrator never
    opens [chartConfig]: [config_text] is what its record keeps of it. *)
Definition chartTool_invoke (random : nat -> Z)
           (config_text : ChartJSTool.ChartConfig -> jsstring)
           (params : ChartJSToolInput) : Exc ChartJSToolOutput :=
  if existsb (jsstring_eqb (chartType params)) ChartJSTool.chart_types then
    bind (ChartJSTool._call random
            (ChartJSTool.mkInput (chartType params)
                                 (chart_description params) None))
      (fun out =>
         Ret (mkChartOutput (ChartJSTool.out_type out)
                (config_text (ChartJSTool.out_chartConfig out))
                (ChartJSTool.out_description out)))
  else Throw schema_mismatch.


(** [Fixtures.env_fallback] with the repository's generator. *)
Definition env_chartTool : Env :=
  mkEnv (classify Fixtures.env_fallback)
        (chartTool_invoke (fun i => Z.of_nat (7 * i)) (fun _ => lit "{}"))
        (embedQuery Fixtures.env_fallback) (nearVector Fixtures.env_fallback)
        (fetchObjects Fixtures.env_fallback) (generate Fixtures.env_fallback).

(* ===================================================================== *)
(** * Properties *)
(* ===================================================================== *)

(* ===================================================================== *)
(** ** Regular expressions *)
(* ===================================================================== *)

Lemma jsstring_eqb_eq a b : jsstring_eqb a b = true <-> a = b.
Proof.
  unfold jsstring_eqb. destruct (list_eq_dec ascii_dec a b); split; congruence.
Qed.

Lemma M_suffix r s s' cs cs' :
  M r s s' cs cs' -> exists w, s = w ++ s'.
Proof.
  induction 1.
  - exists []; reflexivity.
  - exists [c]; reflexivity.
  - exists [a]; reflexivity.
  - destruct IHM1 as [w1 ->], IHM2 as [w2 ->].
    exists (w1 ++ w2). now rewrite app_assoc.
  - assumption.
  - assumption.
  - exists []; reflexivity.
  - destruct IHM1 as [w1 ->], IHM2 as [w2 ->].
    exists (w1 ++ w2). now rewrite app_assoc.
  - assumption.
Qed.

Lemma firstn_consumed (w s' : jsstring) :
  firstn (length (w ++ s') - length s') (w ++ s') = w.
Proof.
  rewrite length_app, Nat.add_sub.
  rewrite firstn_app, Nat.sub_diag, firstn_all. simpl. apply app_nil_r.
Qed.

(** Whatever the matcher returns was accepted by the continuation after a
    match described by [M]. *)
Lemma mtch_sound (R : Type) (r : regex) :
  forall s cs (k : jsstring -> caps -> option R) x,
    mtch r s cs k = Some x ->
    exists s' cs', M r s s' cs cs' /\ k s' cs' = Some x.
Proof.
  induction r as [ | c | p | r1 IH1 r2 IH2 | r1 IH1 r2 IH2 | r IH | n r IH ];
    simpl; intros s cs k x H.
  - exists s, cs. split; [constructor | assumption].
  - destruct s as [ | a t]; [discriminate | ].
    destruct (Ascii.eqb_spec a c) as [-> | ]; [ | discriminate].
    exists t, cs. split; [constructor | assumption].
  - destruct s as [ | a t]; [discriminate | ].
    destruct (p a) eqn:Hp; [ | discriminate].
    exists t, cs. split; [now constructor | assumption].
  - apply IH1 in H. destruct H as (s1 & cs1 & HM1 & H).
    apply IH2 in H. destruct H as (s2 & cs2 & HM2 & H).
    exists s2, cs2. split; [econstructor; eassumption | assumption].
  - destruct (mtch r1 s cs k) eqn:E1.
    + injection H as ->. apply IH1 in E1.
      destruct E1 as (s1 & cs1 & HM & Hk).
      exists s1, cs1. split; [now apply M_AltL | assumption].
    + apply IH2 in H. destruct H as (s1 & cs1 & HM & Hk).
      exists s1, cs1. split; [now apply M_AltR | assumption].
  - remember (length s) as fuel eqn:Hfuel. clear Hfuel.
    revert s cs H. induction fuel as [ | f IHf]; intros s cs H.
    + exists s, cs. split; [constructor | assumption].
    + match type of H with
      | match ?m with _ => _ end = _ => destruct m eqn:E
      end.
      * injection H as ->. apply IH in E.
        destruct E as (s1 & cs1 & HM & Hk).
        destruct (Nat.ltb_spec (length s1) (length s)) as [Hlt | ];
          [ | discriminate].
        apply IHf in Hk. destruct Hk as (s2 & cs2 & HM2 & Hk).
        exists s2, cs2. split; [ | assumption].
        eapply M_StarS; eassumption.
      * exists s, cs. split; [constructor | assumption].
  - apply IH in H. destruct H as (s1 & cs1 & HM & Hk).
    eexists _, _. split; [ | exact Hk]. now constructor.
Qed.

(** [p*] and [p+] for a character class [p]. *)
Lemma M_star_cls (p : ascii -> bool) s s' cs cs' :
  M (Star (Cls p)) s s' cs cs' ->
  exists w, s = w ++ s' /\ forallb p w = true /\ cs' = cs.
Proof.
  intros H. remember (Star (Cls p)) as r eqn:Hr.
  induction H; try discriminate.
  - exists []. repeat split.
  - injection Hr as ->.
    destruct (IHM2 eq_refl) as (w & -> & Hw & ->).
    inversion H; subst.
    exists (a :: w). simpl. rewrite Hw.
    match goal with Hp : p a = true |- _ => rewrite Hp end.
    repeat split.
Qed.

Lemma M_plus_cls (p : ascii -> bool) s s' cs cs' :
  M (Plus (Cls p)) s s' cs cs' ->
  exists w, s = w ++ s' /\ forallb p w = true /\ w <> [] /\ cs' = cs.
Proof.
  intros H. inversion H; subst.
  match goal with H1 : M (Cls p) _ _ _ _ |- _ => inversion H1; subst end.
  match goal with H2 : M (Star _) _ _ _ _ |- _ =>
    apply M_star_cls in H2; destruct H2 as (w & -> & Hw & ->) end.
  exists (a :: w). simpl.
  match goal with Hp : p a = true |- _ => rewrite Hp end.
  repeat split; [assumption | discriminate].
Qed.

(** [exec] returns a match of the pattern that starts at its [index]. *)
Lemma exec_from_sound r : forall s i m,
  exec_from r i s = Some m ->
  exists pre rest s1,
    s = pre ++ rest /\ index m = i + length pre /\
    M r rest s1 [] (groups m) /\
    matched m = firstn (length rest - length s1) rest.
Proof.
  induction s as [ | a t IH]; intros i m H; simpl in H.
  - destruct (match_here r []) as [[s1 cs1] | ] eqn:E; [ | discriminate].
    injection H as <-. unfold match_here in E.
    apply mtch_sound in E. destruct E as (s' & cs' & HM & E).
    injection E as <- <-.
    exists [], [], s'. simpl. rewrite Nat.add_0_r. repeat split. assumption.
  - destruct (match_here r (a :: t)) as [[s1 cs1] | ] eqn:E.
    + injection H as <-. unfold match_here in E.
      apply mtch_sound in E. destruct E as (s' & cs' & HM & E).
      injection E as <- <-.
      exists [], (a :: t), s'. simpl. rewrite Nat.add_0_r.
      repeat split. assumption.
    + apply IH in H. destruct H as (pre & rest & s1 & -> & Hi & HM & Hm).
      exists (a :: pre), rest, s1. simpl. repeat split; [lia | assumption ..].
Qed.

(* ===================================================================== *)
(** ** Properties of the workflow *)
(* ===================================================================== *)

Lemma apply_no_update (st : GraphState) : apply_update st no_update = st.
Proof. destruct st; reflexivity. Qed.

Lemma pregel_done fuel env st tr em :
  pregel fuel env st [] tr em = mkRun tr em (Ret st).
Proof. destruct fuel; reflexivity. Qed.

Lemma pregel_step fuel env st n ns tr em :
  pregel (S fuel) env st (n :: ns) tr em =
  match run_nodes env st (n :: ns) with
  | Throw e => mkRun (tr ++ n :: ns) em (Throw e)
  | Ret us =>
      let st' := fold_left apply_update us st in
      pregel fuel env st' (dedup_nodes (flat_map (edges st') (n :: ns)))
             (tr ++ n :: ns) (em ++ [st'])
  end.
Proof. reflexivity. Qed.

(** The router always returns a decision: both of its paths end in a
    [return], and the keyword path cannot throw. *)
Lemma delegatingNode_returns env st :
  exists c r a, delegatingNode env st = Ret (decision c r a).
Proof.
  unfold delegatingNode.
  destruct (classify env (userQuery st)) as [d | e]; simpl.
  - destruct (raw_needsChart d), (raw_needsRAG d); simpl;
      unfold keyword_fallback; eauto.
  - unfold keyword_fallback; eauto.
Qed.

(** The first step of every run is the router alone. *)
Lemma run_graph_routed env st c r a :
  delegatingNode env st = Ret (decision c r a) ->
  run_graph env st =
  let st1 := apply_update st (decision c r a) in
  pregel 24 env st1 (dedup_nodes (route st1 ++ [])) [Delegator] [st; st1].
Proof.
  intros H. unfold run_graph, recursionLimit.
  rewrite pregel_step. simpl run_nodes. rewrite H. reflexivity.
Qed.

(** The retrieval node never throws. *)
Lemma ragAgentNode_returns env st : exists u, ragAgentNode env st = Ret u.
Proof.
  unfold ragAgentNode. destruct (needsRAG st); simpl; [ | eauto].
  destruct (queryRAG env _); simpl; eauto.
Qed.

(** The synthesizer never throws. *)
Lemma aggregatorNode_returns env st : exists u, aggregatorNode env st = Ret u.
Proof.
  unfold aggregatorNode. destruct (truthy (finalAnswer st)); [eauto | ].
  destruct (generate env _); simpl; eauto.
Qed.

(** A failure of the retrieval worker is contained: with the embedding
    service down, the run reaches the synthesizer and ends in a terminal
    state. *)
Lemma retrieval_failure_contained :
  let init := initial_state Fixtures.chart_and_rag_query
                            (Some Fixtures.company_b) in
  let r := run_graph Fixtures.env_embed_down init in
  trace r = [Delegator; Chart; Rag; Aggregator] /\
  exists st, outcome r = Ret st /\ ragResult st = Some retrieval_error.
Proof.
  vm_compute. split; [reflexivity | ]. eexists. split; reflexivity.
Qed.

(** C2.  When the router's decision carries a non-empty direct answer, the
    run consists of the router alone: the chart worker, the retrieval
    worker and the synthesizer are not invoked, the terminal state is the
    routed state, its answer is the direct answer, and [allData] is what
    it was before the run (empty for [runQuery]). *)
Theorem direct_answer_short_circuit env st c r a :
  delegatingNode env st = Ret (decision c r a) ->
  truthy a = true ->
  let run := run_graph env st in
  trace run = [Delegator] /\
  ~ In Chart (trace run) /\ ~ In Rag (trace run) /\
  ~ In Aggregator (trace run) /\
  outcome run = Ret (apply_update st (decision c r a)) /\
  (forall final, outcome run = Ret final ->
     finalAnswer final = a /\ allData final = allData st /\
     chartResult final = chartResult st /\ ragResult final = ragResult st).
Proof.
  intros Hd Ha run. subst run. rewrite (run_graph_routed _ _ Hd). cbv zeta.
  assert (Hroute : route (apply_update st (decision c r a)) = []).
  { unfold route. simpl. now rewrite Ha. }
  rewrite Hroute. simpl dedup_nodes. rewrite pregel_done. simpl.
  repeat split; try (intros [H | []]; discriminate);
    injection H as <-; reflexivity.
Qed.

Lemma direct_answer_short_circuit_witness :
  let st := initial_state (lit "What is the capital of France?") None in
  let run := run_graph Fixtures.env_direct st in
  trace run = [Delegator] /\
  ~ In Chart (trace run) /\ ~ In Rag (trace run) /\
  ~ In Aggregator (trace run) /\
  outcome run = Ret (apply_update st (decision false false (lit "Paris"))) /\
  (forall final, outcome run = Ret final ->
     finalAnswer final = lit "Paris" /\ allData final = [] /\
     chartResult final = None /\ ragResult final = None).
Proof.
  apply (@direct_answer_short_circuit Fixtures.env_direct
           (initial_state (lit "What is the capital of France?") None)
           false false (lit "Paris")); reflexivity.
Defined.

(** C10.  A worker whose flag is unset returns the empty update, which
    writes no channel: applying it leaves the state as it was. *)
Theorem worker_nodes_noop_when_unflagged env st :
  (needsChart st = false ->
   chartToolNode env st = Ret no_update /\
   set_chartResult no_update = None /\ add_allData no_update = None /\
   apply_update st no_update = st) /\
  (needsRAG st = false ->
   ragAgentNode env st = Ret no_update /\
   set_ragResult no_update = None /\ add_allData no_update = None /\
   apply_update st no_update = st).
Proof.
  split; intros H.
  - unfold chartToolNode. rewrite H. simpl.
    repeat split. apply apply_no_update.
  - unfold ragAgentNode. rewrite H. simpl.
    repeat split. apply apply_no_update.
Qed.

Lemma worker_nodes_noop_when_unflagged_witness :
  let st := initial_state (lit "What is the capital of France?") None in
  (chartToolNode Fixtures.env_fallback st = Ret no_update /\
   set_chartResult no_update = None /\ add_allData no_update = None /\
   apply_update st no_update = st) /\
  (ragAgentNode Fixtures.env_fallback st = Ret no_update /\
   set_ragResult no_update = None /\ add_allData no_update = None /\
   apply_update st no_update = st).
Proof.
  destruct (worker_nodes_noop_when_unflagged Fixtures.env_fallback
              (initial_state (lit "What is the capital of France?") None))
    as [Hc Hr].
  split; [apply Hc | apply Hr]; reflexivity.
Defined.

(* ===================================================================== *)
(** ** Properties of the retrieval worker *)
(* ===================================================================== *)

Lemma queryRAG_retrieves env input hits :
  retrieves env input hits ->
  queryRAG env input =
  Ret (match hits with [] => no_information | _ :: _ => format_hits hits end).
Proof.
  intros H. unfold queryRAG, queryRAG_try, search.
  destruct H as [tn v o Ht Hne Hv Hs | tn v e fr Ht Hne Hv Hs Hf];
    rewrite Ht; (destruct tn as [ | c tn]; [congruence | ]);
    rewrite Hv; simpl; rewrite Hs; simpl.
  - destruct (or_empty o); reflexivity.
  - rewrite Hf. simpl.
    destruct (map properties (or_empty (objects fr))); reflexivity.
Qed.

(** Every call of [queryRAG] returns. *)
Lemma queryRAG_returns env input : exists r, queryRAG env input = Ret r.
Proof.
  unfold queryRAG. destruct (queryRAG_try env input); simpl; eauto.
Qed.

(** C7.  [queryRAG] always returns a result: no exception leaves it.  Any
    exception raised inside its [try] block is turned into the fixed error
    result (error text, no references, no raw data); this is what happens
    when the tenant is absent or empty, when the embedding call throws,
    when both the vector search and the listing throw, and when the
    response has no [data] to format.  The retrieval node in turn never
    throws, so none of these failures ends the run. *)
Theorem queryRAG_never_throws env input :
  (exists r, queryRAG env input = Ret r) /\
  (forall e, queryRAG_try env input = Throw e ->
     queryRAG env input = Ret retrieval_error) /\
  (tenant input = None \/ tenant input = Some [] ->
     queryRAG env input = Ret retrieval_error) /\
  (forall e, embedQuery env (query input) = Throw e ->
     queryRAG env input = Ret retrieval_error) /\
  (forall tn v e1 e2,
     tenant input = Some tn ->
     embedQuery env (query input) = Ret v ->
     nearVector env v tn (limit input) = Throw e1 ->
     fetchObjects env tn (limit input) = Throw e2 ->
     queryRAG env input = Ret retrieval_error) /\
  (forall tn v,
     tenant input = Some tn ->
     embedQuery env (query input) = Ret v ->
     nearVector env v tn (limit input) = Ret NoData ->
     queryRAG env input = Ret retrieval_error) /\
  answer retrieval_error
    = lit "An error occurred while retrieving information." /\
  references retrieval_error = [] /\ rawData retrieval_error = [] /\
  (forall st, exists u, ragAgentNode env st = Ret u).
Proof.
  split; [apply queryRAG_returns | ].
  unfold queryRAG. repeat split.
  - intros e ->. reflexivity.
  - unfold queryRAG_try. intros [-> | ->]; reflexivity.
  - intros e He. unfold queryRAG_try.
    destruct (tenant input) as [[ | c tn] | ]; try reflexivity.
    rewrite He. reflexivity.
  - intros tn v e1 e2 Ht Hv H1 H2. unfold queryRAG_try, search.
    rewrite Ht. destruct tn; [reflexivity | ].
    rewrite Hv. simpl. rewrite H1. simpl. rewrite H2. reflexivity.
  - intros tn v Ht Hv H1. unfold queryRAG_try, search.
    rewrite Ht. destruct tn; [reflexivity | ].
    rewrite Hv. simpl. rewrite H1. reflexivity.
  - intros st. apply ragAgentNode_returns.
Qed.

Lemma queryRAG_never_throws_witness :
  queryRAG Fixtures.env_fallback
    (mkRAGInput Fixtures.requirements_query None None) = Ret retrieval_error
  /\ queryRAG Fixtures.env_embed_down
       (mkRAGInput Fixtures.requirements_query (Some Fixtures.company_a) None)
     = Ret retrieval_error.
Proof.
  split.
  - apply (queryRAG_never_throws Fixtures.env_fallback
             (mkRAGInput Fixtures.requirements_query None None)).
    left; reflexivity.
  - apply (proj1 (proj2 (proj2 (proj2
             (queryRAG_never_throws Fixtures.env_embed_down
                (mkRAGInput Fixtures.requirements_query
                            (Some Fixtures.company_a) None)))))
             Fixtures.search_failed).
    reflexivity.
Defined.

(** C8.  When the search, by the vector search or by the listing used in
    its place, yields no hit, [queryRAG] returns the fixed answer with no
    references and no raw data. *)
Theorem queryRAG_no_hits env input :
  retrieves env input [] ->
  queryRAG env input = Ret no_information /\
  answer no_information
    = lit "I couldn't find any relevant information in the documents." /\
  references no_information = [] /\
  rawData no_information = [].
Proof.
  intros H. rewrite (queryRAG_retrieves H). repeat split.
Qed.

Lemma queryRAG_no_hits_witness :
  queryRAG Fixtures.env_empty_store
    (mkRAGInput Fixtures.requirements_query (Some Fixtures.company_a) None)
  = Ret no_information /\
  answer no_information
    = lit "I couldn't find any relevant information in the documents." /\
  references no_information = [] /\
  rawData no_information = [].
Proof.
  apply (@queryRAG_no_hits Fixtures.env_empty_store
           (mkRAGInput Fixtures.requirements_query
                       (Some Fixtures.company_a) None)).
  apply (@retrieves_primary Fixtures.env_empty_store _
           Fixtures.company_a [] (Some []));
    [reflexivity | discriminate | reflexivity | reflexivity].
Defined.

(** [runQuery] called without a tenant starts the run with
    ["company_a"]. *)
Lemma runQuery_default_tenant q :
  state_tenant (initial_state q None) = Some (lit "company_a").
Proof. reflexivity. Qed.

(** C9.  With [needsRAG] set and the tenant of the state undefined or
    empty, the retrieval node calls [queryRAG] with the tenant
    ["company_a"]: it behaves as it does on the same state with that
    tenant, the tenant check of [queryRAG] passes, the searches are made
    for ["company_a"], and the hits they return for that tenant are the raw
    data of the result. *)
Theorem rag_node_defaults_tenant env st :
  needsRAG st = true ->
  state_tenant st = None \/ state_tenant st = Some [] ->
  let input := mkRAGInput (userQuery st) (Some (lit "company_a")) None in
  ragAgentNode env st
    = ragAgentNode env (with_tenant st (Some (lit "company_a"))) /\
  (exists r, queryRAG env input = Ret r /\
             ragAgentNode env st = Ret (rag_update r)) /\
  queryRAG_try env input
    = bind (embedQuery env (userQuery st)) (fun vector =>
      bind (search env vector (lit "company_a") 3) (fun results =>
      match results with
      | NoData => Throw (mkError (lit "Cannot read properties of undefined"))
      | Data o =>
          match or_empty o with
          | [] => Ret no_information
          | h :: t => Ret (format_hits (h :: t))
          end
      end)) /\
  (forall hits, retrieves env input hits -> hits <> [] ->
     exists r, ragAgentNode env st = Ret (rag_update r) /\ rawData r = hits).
Proof.
  intros Hrag Ht input.
  assert (Hdef : tenant_or_default (state_tenant st) = lit "company_a")
    by (destruct Ht as [-> | ->]; reflexivity).
  assert (Hnode : forall r, queryRAG env input = Ret r ->
                            ragAgentNode env st = Ret (rag_update r)).
  { intros r Hr. unfold ragAgentNode. rewrite Hrag, Hdef.
    change (negb true) with false. cbv iota.
    fold input. rewrite Hr. reflexivity. }
  split; [ | split; [ | split]].
  - unfold ragAgentNode. simpl. now rewrite Hdef.
  - destruct (queryRAG_returns env input) as [r Hr].
    exists r. split; [assumption | now apply Hnode].
  - unfold queryRAG_try, input, limit, default_topK. simpl.
    destruct (embedQuery env (userQuery st)) as [v | e]; simpl;
      [ | reflexivity].
    destruct (search env v _ 3) as [[ | o] | e]; simpl; try reflexivity.
    destruct (or_empty o); reflexivity.
  - intros hits Hret Hne.
    exists (format_hits hits). split; [ | reflexivity].
    apply Hnode. rewrite (queryRAG_retrieves Hret).
    destruct hits; [congruence | reflexivity].
Qed.

Lemma rag_node_defaults_tenant_witness :
  let st := with_tenant (apply_update
                 (initial_state Fixtures.requirements_query None)
                 (decision false true [])) (Some []) in
  exists r, ragAgentNode Fixtures.env_fallback st = Ret (rag_update r) /\
            rawData r = Fixtures.records_of Fixtures.company_a 3.
Proof.
  pose (st := with_tenant (apply_update
                 (initial_state Fixtures.requirements_query None)
                 (decision false true [])) (Some [])).
  destruct (@rag_node_defaults_tenant Fixtures.env_fallback st
              eq_refl (or_intror eq_refl)) as (_ & _ & _ & H).
  apply (H (Fixtures.records_of Fixtures.company_a 3)).
  - apply (@retrieves_primary Fixtures.env_fallback _
             (lit "company_a") []
             (Some (Fixtures.records_of Fixtures.company_a 3)));
      [reflexivity | discriminate | reflexivity | reflexivity].
  - discriminate.
Defined.

(* ===================================================================== *)
(** ** Strings, sorting, maps and sets *)
(* ===================================================================== *)

Lemma code_inj a b : code a = code b -> a = b.
Proof.
  unfold code. intros H.
  rewrite <- (ascii_N_embedding a), <- (ascii_N_embedding b). now rewrite H.
Qed.

Lemma str_compare_eq : forall a b, str_compare a b = Eq -> a = b.
Proof.
  induction a as [ | x a IH]; intros [ | y b]; simpl; try discriminate; auto.
  destruct (N.compare_spec (code x) (code y)) as [E | L | G];
    try discriminate.
  intros H. apply code_inj in E. apply IH in H. congruence.
Qed.

Lemma str_compare_refl : forall a, str_compare a a = Eq.
Proof.
  induction a as [ | x a IH]; simpl; [reflexivity | ].
  now rewrite N.compare_refl.
Qed.

Lemma str_compare_antisym : forall a b,
  str_compare b a = CompOpp (str_compare a b).
Proof.
  induction a as [ | x a IH]; intros [ | y b]; simpl; try reflexivity.
  rewrite (N.compare_antisym (code x) (code y)).
  destruct (code x ?= code y)%N; simpl; auto.
Qed.

Lemma str_lt_trans : forall a b c, str_lt a b -> str_lt b c -> str_lt a c.
Proof.
  unfold str_lt.
  induction a as [ | x a IH]; intros [ | y b] [ | z c]; simpl;
    try discriminate; auto.
  destruct (N.compare_spec (code x) (code y)) as [E1 | L1 | G1];
    destruct (N.compare_spec (code y) (code z)) as [E2 | L2 | G2];
    intros H1 H2; try discriminate.
  - rewrite E1, E2, N.compare_refl. eauto.
  - rewrite E1. now apply N.compare_lt_iff in L2 as ->.
  - rewrite <- E2. now apply N.compare_lt_iff in L1 as ->.
  - assert (L : (code x < code z)%N) by lia.
    now apply N.compare_lt_iff in L as ->.
Qed.

Lemma str_leb_false a b : str_leb a b = false -> str_lt b a.
Proof.
  unfold str_leb, str_lt. rewrite (str_compare_antisym a b).
  destruct (str_compare a b); simpl; congruence.
Qed.

Lemma str_leb_true a b : str_leb a b = true -> a <> b -> str_lt a b.
Proof.
  unfold str_leb, str_lt. intros H Hne.
  destruct (str_compare a b) eqn:E; try congruence.
  apply str_compare_eq in E. contradiction.
Qed.

Lemma insert_sorted_perm x : forall l,
  Permutation (insert_sorted x l) (x :: l).
Proof.
  induction l as [ | y l IH]; simpl; [reflexivity | ].
  destruct (str_leb x y); [reflexivity | ].
  rewrite IH. apply perm_swap.
Qed.

Lemma sort_perm : forall l, Permutation (sort l) l.
Proof.
  induction l as [ | x l IH]; simpl; [reflexivity | ].
  rewrite insert_sorted_perm. now constructor.
Qed.

Lemma insert_sorted_strict x : forall l,
  StronglySorted str_lt l -> ~ In x l ->
  StronglySorted str_lt (insert_sorted x l).
Proof.
  induction l as [ | y l IH]; simpl; intros Hs Hn.
  - repeat constructor.
  - inversion Hs as [ | ? ? Hs' Hall]; subst.
    destruct (str_leb x y) eqn:E.
    + assert (Hxy : str_lt x y) by (apply str_leb_true; intuition).
      constructor; [assumption | ].
      constructor; [assumption | ].
      eapply Forall_impl; [ | exact Hall].
      intros z Hz. eapply str_lt_trans; eassumption.
    + apply str_leb_false in E.
      constructor; [apply IH; intuition | ].
      rewrite Forall_forall. intros z Hz.
      apply (Permutation_in _ (insert_sorted_perm x l)) in Hz.
      destruct Hz as [<- | Hz]; [assumption | ].
      rewrite Forall_forall in Hall. now apply Hall.
Qed.

(** Sorting a list without duplicates gives its elements in strictly
    increasing order. *)
Lemma sort_strict : forall l, NoDup l -> StronglySorted str_lt (sort l).
Proof.
  induction l as [ | x l IH]; simpl; intros Hnd; [constructor | ].
  inversion Hnd; subst.
  apply insert_sorted_strict; [now apply IH | ].
  intros Hin. apply (Permutation_in _ (sort_perm l)) in Hin. contradiction.
Qed.

Lemma sort_In l p : In p (sort l) <-> In p l.
Proof.
  split; apply Permutation_in;
    [apply sort_perm | apply Permutation_sym, sort_perm].
Qed.

Lemma jsstring_eqb_refl a : jsstring_eqb a a = true.
Proof. now apply jsstring_eqb_eq. Qed.

Lemma jsstring_eqb_neq a b : a <> b -> jsstring_eqb a b = false.
Proof.
  intros H. destruct (jsstring_eqb a b) eqn:E; [ | reflexivity].
  apply jsstring_eqb_eq in E. contradiction.
Qed.

Lemma JSSet_has_In x : forall s, JSSet.has x s = true <-> In x s.
Proof.
  induction s as [ | y s IH]; simpl; [intuition discriminate | ].
  rewrite orb_true_iff, jsstring_eqb_eq, IH. intuition.
Qed.

Lemma JSSet_add_In x s p : In p (JSSet.add x s) <-> In p s \/ p = x.
Proof.
  unfold JSSet.add. destruct (JSSet.has x s) eqn:E.
  - apply JSSet_has_In in E. intuition; subst; assumption.
  - rewrite in_app_iff. simpl. intuition.
Qed.

Lemma JSSet_add_NoDup x s : NoDup s -> NoDup (JSSet.add x s).
Proof.
  intros H. unfold JSSet.add. destruct (JSSet.has x s) eqn:E; [assumption | ].
  assert (Hn : ~ In x s).
  { intros Hin. apply JSSet_has_In in Hin. congruence. }
  clear E. induction H as [ | y s Hy Hs IH]; simpl.
  - repeat constructor. intros [].
  - constructor.
    + rewrite in_app_iff. simpl in *. intuition.
    + apply IH. simpl in Hn. intuition.
Qed.

Lemma add_all_In : forall pgs s p,
  In p (add_all pgs s) <-> In p s \/ In p pgs.
Proof.
  unfold add_all.
  induction pgs as [ | x pgs IH]; simpl; intros s p; [intuition | ].
  rewrite IH, JSSet_add_In. intuition.
Qed.

Lemma add_all_NoDup : forall pgs s, NoDup s -> NoDup (add_all pgs s).
Proof.
  unfold add_all.
  induction pgs as [ | x pgs IH]; simpl; intros s H; [assumption | ].
  apply IH. now apply JSSet_add_NoDup.
Qed.

Section MapFacts.
Variable V : Type.
Implicit Types (m : JSMap.t V) (k : jsstring) (v : V).

Lemma get_set_same k v : forall m, JSMap.get k (JSMap.set k v m) = Some v.
Proof.
  induction m as [ | [k' v'] m IH]; simpl.
  - now rewrite jsstring_eqb_refl.
  - destruct (jsstring_eqb k k') eqn:E; simpl; rewrite E; auto.
Qed.

Lemma get_set_other k k' v : k' <> k ->
  forall m, JSMap.get k' (JSMap.set k v m) = JSMap.get k' m.
Proof.
  intros Hne. induction m as [ | [k2 v2] m IH]; simpl.
  - now rewrite jsstring_eqb_neq.
  - destruct (jsstring_eqb k k2) eqn:E; simpl; [ | now rewrite IH].
    apply jsstring_eqb_eq in E. subst k2.
    now rewrite (jsstring_eqb_neq Hne).
Qed.

Lemma set_set k v1 v2 : forall m,
  JSMap.set k v2 (JSMap.set k v1 m) = JSMap.set k v2 m.
Proof.
  induction m as [ | [k' v'] m IH]; simpl.
  - now rewrite jsstring_eqb_refl.
  - destruct (jsstring_eqb k k') eqn:E; simpl; rewrite E; congruence.
Qed.

Lemma keys_set_present k v : forall m,
  JSMap.get k m <> None -> JSMap.keys (JSMap.set k v m) = JSMap.keys m.
Proof.
  induction m as [ | [k' v'] m IH]; simpl; [congruence | ].
  destruct (jsstring_eqb k k') eqn:E; simpl; [reflexivity | ].
  intros H. now rewrite IH.
Qed.

Lemma set_absent k v : forall m,
  JSMap.get k m = None -> JSMap.set k v m = m ++ [(k, v)].
Proof.
  induction m as [ | [k' v'] m IH]; simpl; [reflexivity | ].
  destruct (jsstring_eqb k k') eqn:E; [discriminate | ].
  intros H. now rewrite IH.
Qed.

Lemma get_None_keys k : forall m,
  JSMap.get k m = None <-> ~ In k (JSMap.keys m).
Proof.
  induction m as [ | [k' v'] m IH]; simpl; [intuition | ].
  destruct (jsstring_eqb k k') eqn:E.
  - apply jsstring_eqb_eq in E. subst. intuition discriminate.
  - rewrite IH. split; [ | intuition].
    intros H [-> | H']; [ | contradiction].
    rewrite jsstring_eqb_refl in E. discriminate.
Qed.

Lemma In_entries_get k v : forall m,
  NoDup (JSMap.keys m) -> In (k, v) m -> JSMap.get k m = Some v.
Proof.
  induction m as [ | [k' v'] m IH]; simpl; [intuition | ].
  intros Hnd [H | H]; inversion Hnd; subst.
  - injection H as -> ->. now rewrite jsstring_eqb_refl.
  - destruct (jsstring_eqb k k') eqn:E; [ | now apply IH].
    apply jsstring_eqb_eq in E. subst k'.
    exfalso. match goal with Hn : ~ In _ _ |- _ => apply Hn end.
    change k with (fst (k, v)). now apply in_map.
Qed.

End MapFacts.

(* ===================================================================== *)
(** ** Reference aggregation and the combined answer *)
(* ===================================================================== *)

Lemma first_seen_In x : forall l, In x (first_seen l) <-> In x l.
Proof.
  induction l as [ | y l IH]; simpl; [reflexivity | ].
  rewrite filter_In, IH, negb_true_iff. split.
  - intuition.
  - intros [-> | H]; [now left | ].
    destruct (jsstring_eqb x y) eqn:E.
    + apply jsstring_eqb_eq in E. now left.
    + right. now split.
Qed.

Lemma first_seen_NoDup : forall l, NoDup (first_seen l).
Proof.
  induction l as [ | y l IH]; simpl; constructor.
  - rewrite filter_In, jsstring_eqb_refl. intuition discriminate.
  - now apply NoDup_filter.
Qed.

Lemma first_seen_snoc x : forall l,
  first_seen (l ++ [x]) =
  if JSSet.has x (first_seen l) then first_seen l else first_seen l ++ [x].
Proof.
  induction l as [ | y l IH]; simpl; [reflexivity | ].
  rewrite IH. destruct (jsstring_eqb x y) eqn:E; simpl.
  - apply jsstring_eqb_eq in E. subst y.
    destruct (JSSet.has x (first_seen l)); [reflexivity | ].
    rewrite filter_app. simpl. rewrite jsstring_eqb_refl. simpl.
    now rewrite app_nil_r.
  - assert (Hh : JSSet.has x (filter (fun z => negb (jsstring_eqb z y))
                                      (first_seen l))
                 = JSSet.has x (first_seen l)).
    { apply eq_true_iff_eq. rewrite !JSSet_has_In, filter_In, E. intuition. }
    rewrite Hh. destruct (JSSet.has x (first_seen l)); [reflexivity | ].
    rewrite filter_app. simpl. now rewrite E.
Qed.

Lemma position_Some f : forall ks,
  In f ks <-> exists i, position f ks = Some i.
Proof.
  induction ks as [ | k ks IH]; simpl.
  - split; [intros [] | intros [i H]; discriminate].
  - destruct (jsstring_eqb f k) eqn:E.
    + apply jsstring_eqb_eq in E. subst. split; eauto.
    + rewrite IH. split.
      * intros [-> | [i H]]; [now rewrite jsstring_eqb_refl in E | ].
        rewrite H. simpl. eauto.
      * intros [i H]. right.
        destruct (position f ks); [eauto | discriminate].
Qed.

Lemma position_app_l f : forall ks ext,
  In f ks -> position f (ks ++ ext) = position f ks.
Proof.
  induction ks as [ | k ks IH]; simpl; intros ext H; [contradiction | ].
  destruct (jsstring_eqb f k) eqn:E; [reflexivity | ].
  destruct H as [-> | H]; [now rewrite jsstring_eqb_refl in E | ].
  now rewrite IH.
Qed.

Lemma position_snoc_new f : forall ks,
  ~ In f ks -> position f (ks ++ [f]) = Some (length ks).
Proof.
  induction ks as [ | k ks IH]; simpl; intros H.
  - now rewrite jsstring_eqb_refl.
  - rewrite jsstring_eqb_neq by intuition. rewrite IH by intuition.
    reflexivity.
Qed.

Lemma position_snoc_other f g : forall ks,
  g <> f -> ~ In g ks -> position g (ks ++ [f]) = None.
Proof.
  induction ks as [ | k ks IH]; simpl; intros Hne H.
  - now rewrite jsstring_eqb_neq.
  - rewrite jsstring_eqb_neq by intuition. rewrite IH by intuition.
    reflexivity.
Qed.

(** Labels count the distinct sources from 1. *)
Lemma label_nth : forall ks i f,
  NoDup ks -> nth_error ks i = Some f -> label ks f = S i.
Proof.
  unfold label.
  induction ks as [ | k ks IH]; intros [ | i] f Hnd H; simpl in *;
    try discriminate.
  - injection H as ->. now rewrite jsstring_eqb_refl.
  - inversion Hnd; subst.
    rewrite jsstring_eqb_neq.
    + specialize (IH i f H3 H). destruct (position f ks); simpl; congruence.
    + intros ->. apply nth_error_In in H. contradiction.
Qed.

Lemma Inv_init : Inv [] acc0.
Proof. constructor; simpl; try reflexivity. discriminate. Qed.

Lemma fold_add_page f : forall pgs (m : JSMap.t JSSet.t) s,
  JSMap.get f m = Some s ->
  fold_left (add_page f) pgs m = JSMap.set f (add_all pgs s) m.
Proof.
  unfold add_all.
  induction pgs as [ | p pgs IH]; simpl; intros m s H.
  - clear - H. induction m as [ | [k v] m IH]; simpl in *; [discriminate | ].
    destruct (jsstring_eqb f k) eqn:E.
    + apply jsstring_eqb_eq in E. congruence.
    + f_equal. now apply IH.
  - unfold add_page at 2. rewrite H.
    rewrite (IH _ (JSSet.add p s)) by apply get_set_same.
    apply set_set.
Qed.

Lemma visit_referencesMap a h :
  referencesMap (visit a h) =
  fold_left (add_page (hit_fileId h)) (or_empty (hit_pageNumber h))
    (if negb (JSMap.has (hit_fileId h) (referencesMap a))
     then JSMap.set (hit_fileId h) JSSet.empty (referencesMap a)
     else referencesMap a).
Proof.
  unfold visit.
  destruct (negb (JSMap.has (hit_fileId h) (fileIdToIndex a))); reflexivity.
Qed.

Lemma visit_fileIdToIndex a h :
  fileIdToIndex (visit a h) =
  if negb (JSMap.has (hit_fileId h) (fileIdToIndex a))
  then JSMap.set (hit_fileId h) (fileCounter a) (fileIdToIndex a)
  else fileIdToIndex a.
Proof.
  unfold visit.
  destruct (negb (JSMap.has (hit_fileId h) (fileIdToIndex a))); reflexivity.
Qed.

Lemma visit_fileCounter a h :
  fileCounter (visit a h) =
  if negb (JSMap.has (hit_fileId h) (fileIdToIndex a))
  then S (fileCounter a) else fileCounter a.
Proof.
  unfold visit.
  destruct (negb (JSMap.has (hit_fileId h) (fileIdToIndex a))); reflexivity.
Qed.

Lemma visit_combinedAnswer a h :
  combinedAnswer (visit a h) =
  combinedAnswer a ++
    show_index (JSMap.get (hit_fileId h) (fileIdToIndex (visit a h)))
    ++ lit "- Page " ++ join (lit ", ") (or_empty (hit_pageNumber h))
    ++ lit ": " ++ hit_answer h ++ [nl; nl].
Proof.
  unfold visit.
  destruct (negb (JSMap.has (hit_fileId h) (fileIdToIndex a))); reflexivity.
Qed.

Lemma has_first_seen done a f :
  Inv done a ->
  JSMap.has f (referencesMap a) = JSSet.has f (first_seen (ids done)) /\
  JSMap.has f (fileIdToIndex a) = JSSet.has f (first_seen (ids done)).
Proof.
  intros [Hk _ Hi _ _]. split; apply eq_true_iff_eq;
    rewrite JSSet_has_In; unfold JSMap.has.
  - rewrite <- Hk. destruct (JSMap.get f (referencesMap a)) eqn:E.
    + split; [intros _ | reflexivity].
      destruct (in_dec (list_eq_dec ascii_dec) f
                       (JSMap.keys (referencesMap a))) as [ | Hn];
        [assumption | ].
      apply get_None_keys in Hn. congruence.
    + apply get_None_keys in E. split; [discriminate | contradiction].
  - rewrite Hi, position_Some.
    destruct (position f (first_seen (ids done))); simpl.
    + split; eauto.
    + split; [discriminate | intros [i H]; discriminate].
Qed.

Lemma ids_snoc done h : ids (done ++ [h]) = ids done ++ [hit_fileId h].
Proof. unfold ids. now rewrite map_app. Qed.

(** The body of the loop keeps the invariant. *)
Lemma Inv_step done a h : Inv done a -> Inv (done ++ [h]) (visit a h).
Proof.
  intros HI. destruct (has_first_seen (hit_fileId h) HI) as [Hr Hx].
  destruct HI as [Hk Hp Hi Hc Ha].
  set (f := hit_fileId h) in *. set (ks := first_seen (ids done)) in *.
  set (pgs := or_empty (hit_pageNumber h)).
  assert (Hks' : first_seen (ids (done ++ [h])) =
                 if JSSet.has f ks then ks else ks ++ [f]).
  { rewrite ids_snoc. apply first_seen_snoc. }
  (* the references *)
  assert (Href : exists refs0 s0,
    referencesMap (visit a h) = JSMap.set f (add_all pgs s0) refs0 /\
    JSMap.get f refs0 = Some s0 /\
    JSMap.keys refs0 = first_seen (ids (done ++ [h])) /\
    (forall g, g <> f ->
       JSMap.get g refs0 = JSMap.get g (referencesMap a)) /\
    NoDup s0 /\
    (forall p, In p s0 <->
       exists h', In h' done /\ hit_fileId h' = f /\
                  In p (or_empty (hit_pageNumber h')))).
  { rewrite visit_referencesMap. fold f pgs. rewrite Hr, Hks'.
    destruct (JSSet.has f ks) eqn:E; simpl negb; cbv iota.
    - unfold JSMap.has in Hr.
      destruct (JSMap.get f (referencesMap a)) as [s | ] eqn:G;
        [ | discriminate].
      exists (referencesMap a), s.
      repeat split; try (apply (Hp f s G)); auto.
      now apply fold_add_page.
    - unfold JSMap.has in Hr.
      destruct (JSMap.get f (referencesMap a)) as [s | ] eqn:G;
        [discriminate | ].
      exists (JSMap.set f JSSet.empty (referencesMap a)), JSSet.empty.
      assert (Hnin : ~ In f (ids done)).
      { intros Hin. apply first_seen_In, JSSet_has_In in Hin.
        fold ks in Hin. congruence. }
      repeat split.
      + apply fold_add_page, get_set_same.
      + apply get_set_same.
      + rewrite (set_absent _ _ _ G). unfold JSMap.keys in *.
        rewrite map_app, Hk. reflexivity.
      + intros g Hg. now apply get_set_other.
      + constructor.
      + intros [].
      + intros (h' & Hin & Hf & _). apply Hnin. unfold ids.
        rewrite <- Hf. now apply in_map. }
  destruct Href as (refs0 & s0 & Hrefs & Hg0 & Hk0 & Hother & Hnd0 & Hin0).
  (* the labels *)
  assert (Hidx : forall g,
    JSMap.get g (fileIdToIndex (visit a h))
    = option_map S (position g (first_seen (ids (done ++ [h]))))).
  { intros g. rewrite visit_fileIdToIndex. fold f. rewrite Hx, Hks'.
    destruct (JSSet.has f ks) eqn:E; simpl negb; cbv iota; [apply Hi | ].
    assert (Hnin : ~ In f ks).
    { intros Hin. apply JSSet_has_In in Hin. congruence. }
    destruct (list_eq_dec ascii_dec g f) as [-> | Hne].
    - rewrite get_set_same, position_snoc_new, Hc by assumption.
      reflexivity.
    - rewrite get_set_other, Hi by assumption.
      destruct (in_dec (list_eq_dec ascii_dec) g ks) as [Hin | Hn].
      + now rewrite position_app_l.
      + rewrite position_snoc_other by assumption.
        destruct (position g ks) eqn:P; [ | reflexivity].
        exfalso. apply Hn. apply position_Some. eauto. }
  constructor.
  - rewrite Hrefs, keys_set_present; [assumption | congruence].
  - intros g s Hg. rewrite Hrefs in Hg.
    destruct (list_eq_dec ascii_dec g f) as [-> | Hne].
    + rewrite get_set_same in Hg. injection Hg as <-.
      split; [now apply add_all_NoDup | ].
      intros p. rewrite add_all_In, Hin0. split.
      * intros [(h' & Hin & Hf & Hpg) | Hpg].
        -- exists h'. rewrite in_app_iff. auto.
        -- exists h. rewrite in_app_iff. simpl. auto.
      * intros (h' & Hin & Hf & Hpg). apply in_app_iff in Hin.
        destruct Hin as [Hin | [<- | []]]; [left; eauto | now right].
    + rewrite get_set_other, Hother in Hg by assumption.
      destruct (Hp g s Hg) as [Hnd Hiff]. split; [assumption | ].
      intros p. rewrite Hiff. split.
      * intros (h' & Hin & Hf & Hpg). exists h'. rewrite in_app_iff. auto.
      * intros (h' & Hin & Hf & Hpg). apply in_app_iff in Hin.
        destruct Hin as [Hin | [<- | []]]; [eauto | ].
        fold f in Hf. congruence.
  - exact Hidx.
  - rewrite visit_fileCounter. fold f. rewrite Hx, Hks', Hc.
    destruct (JSSet.has f ks); simpl; [reflexivity | ].
    rewrite length_app. simpl. lia.
  - rewrite visit_combinedAnswer, Hidx, map_app, concat_app, Ha. simpl.
    rewrite app_nil_r. f_equal.
    + f_equal. apply map_ext_in. intros h' Hin. unfold passage, label.
      assert (Hin' : In (hit_fileId h') ks).
      { apply first_seen_In. unfold ids. now apply in_map. }
      rewrite Hks'. destruct (JSSet.has f ks); [reflexivity | ].
      now rewrite position_app_l.
    + unfold passage, label. fold f.
      assert (Hin' : In f (first_seen (ids (done ++ [h])))).
      { apply first_seen_In. rewrite ids_snoc, in_app_iff. simpl. auto. }
      apply position_Some in Hin'. destruct Hin' as [i ->]. reflexivity.
Qed.

Lemma Inv_fold : forall todo done a,
  Inv done a -> Inv (done ++ todo) (fold_left visit todo a).
Proof.
  induction todo as [ | h todo IH]; simpl; intros done a H.
  - now rewrite app_nil_r.
  - replace (done ++ h :: todo) with ((done ++ [h]) ++ todo)
      by (rewrite <- app_assoc; reflexivity).
    apply IH. now apply Inv_step.
Qed.

Lemma Inv_final hits : Inv hits (fold_left visit hits acc0).
Proof. apply (Inv_fold hits Inv_init). Qed.

Lemma trimStart_snoc c : is_space c = false ->
  forall l, exists l', trimStart (l ++ [c]) = l' ++ [c].
Proof.
  intros Hc. induction l as [ | x l IH]; simpl.
  - rewrite Hc. now exists [].
  - destruct (is_space x); [assumption | ]. now exists (x :: l).
Qed.

(** [trim] only removes trailing white space from a string that starts
    with another character. *)
Lemma trim_trimEnd c s : is_space c = false -> trim (c :: s) = trimEnd (c :: s).
Proof.
  intros Hc. unfold trim, trimEnd. simpl rev.
  destruct (@trimStart_snoc c Hc (rev s)) as [l' ->].
  rewrite rev_app_distr. simpl. now rewrite Hc.
Qed.

Lemma format_hits_references hits :
  references (format_hits hits)
  = map make_reference (referencesMap (fold_left visit hits acc0)).
Proof. reflexivity. Qed.

(** C3.  For a non-empty list of hits, the references of [queryRAG] have
    one entry for each distinct [fileId] of the hits, in the order in which
    the [fileId]s are first seen; the pages of an entry are in strictly
    increasing lexicographic order (hence without duplicates) and are the
    page labels of the hits with that [fileId]. *)
Theorem references_aggregate env input hits :
  retrieves env input hits -> hits <> [] ->
  exists r,
    queryRAG env input = Ret r /\
    map fileId (references r) = first_seen (map hit_fileId hits) /\
    NoDup (map fileId (references r)) /\
    (forall f, In f (map fileId (references r)) <->
               exists h, In h hits /\ hit_fileId h = f) /\
    (forall ref, In ref (references r) ->
       StronglySorted str_lt (pages ref) /\
       forall p, In p (pages ref) <->
                 exists h, In h hits /\ hit_fileId h = fileId ref /\
                           In p (or_empty (hit_pageNumber h))).
Proof.
  intros Hret Hne. exists (format_hits hits).
  assert (HQ : queryRAG env input = Ret (format_hits hits)).
  { rewrite (queryRAG_retrieves Hret). destruct hits; congruence. }
  destruct (Inv_final hits) as [Hk Hp _ _ _].
  set (m := referencesMap (fold_left visit hits acc0)) in *.
  assert (Hids : map fileId (references (format_hits hits))
                 = first_seen (map hit_fileId hits)).
  { rewrite format_hits_references. fold m. rewrite map_map. simpl.
    exact Hk. }
  split; [exact HQ | ]. split; [exact Hids | ].
  split; [rewrite Hids; apply first_seen_NoDup | ].
  split.
  - intros f. rewrite Hids, first_seen_In, in_map_iff.
    split; intros (h & H1 & H2); exists h; auto.
  - intros ref Hin. rewrite format_hits_references in Hin. fold m in Hin.
    apply in_map_iff in Hin. destruct Hin as ([f s] & <- & Hin).
    assert (Hget : JSMap.get f m = Some s).
    { apply In_entries_get; [ | assumption].
      rewrite Hk. apply first_seen_NoDup. }
    destruct (Hp f s Hget) as [Hnd Hiff]. simpl. split.
    + now apply sort_strict.
    + intros p. unfold JSSet.elements. now rewrite sort_In, Hiff.
Qed.

Lemma references_aggregate_witness :
  exists r,
    queryRAG Fixtures.env_fallback
      (mkRAGInput Fixtures.requirements_query (Some Fixtures.company_a) None)
    = Ret r /\
    map fileId (references r)
    = first_seen (map hit_fileId (Fixtures.records_of Fixtures.company_a 3)) /\
    NoDup (map fileId (references r)) /\
    (forall f, In f (map fileId (references r)) <->
               exists h, In h (Fixtures.records_of Fixtures.company_a 3)
                         /\ hit_fileId h = f) /\
    (forall ref, In ref (references r) ->
       StronglySorted str_lt (pages ref) /\
       forall p, In p (pages ref) <->
                 exists h, In h (Fixtures.records_of Fixtures.company_a 3)
                           /\ hit_fileId h = fileId ref /\
                           In p (or_empty (hit_pageNumber h))).
Proof.
  apply (@references_aggregate Fixtures.env_fallback
           (mkRAGInput Fixtures.requirements_query
                       (Some Fixtures.company_a) None)
           (Fixtures.records_of Fixtures.company_a 3)).
  - apply (@retrieves_primary Fixtures.env_fallback _
             Fixtures.company_a []
             (Some (Fixtures.records_of Fixtures.company_a 3)));
      [reflexivity | discriminate | reflexivity | reflexivity].
  - discriminate.
Defined.

(** C4.  For a non-empty list of hits, the answer of [queryRAG] is the
    concatenation, in retrieval order, of one passage per hit, with the
    white space at its end removed.  A passage is the label of the hit's
    [fileId], ["- Page "], the pages of the hit joined by [", "], [": "],
    the answer text of the hit, and two line feeds; the label of the
    [i]-th distinct [fileId] in first-seen order (from zero) is [i + 1]. *)
Theorem combined_answer_format env input hits :
  retrieves env input hits -> hits <> [] ->
  exists r,
    queryRAG env input = Ret r /\
    let ks := first_seen (map hit_fileId hits) in
    (forall i f, nth_error ks i = Some f -> label ks f = S i) /\
    (forall h, In h hits -> 1 <= label ks (hit_fileId h) <= length ks) /\
    answer r = trimEnd (concat (map (passage ks) hits)).
Proof.
  intros Hret Hne. exists (format_hits hits).
  split.
  { rewrite (queryRAG_retrieves Hret). destruct hits; congruence. }
  intros ks. split; [ | split].
  - intros i f. apply label_nth, first_seen_NoDup.
  - intros h Hin.
    assert (Hf : In (hit_fileId h) ks).
    { apply first_seen_In. now apply in_map. }
    apply In_nth_error in Hf. destruct Hf as [i Hi].
    rewrite (@label_nth ks i (hit_fileId h) (first_seen_NoDup _) Hi).
    assert (i < length ks) by (apply nth_error_Some; congruence). lia.
  - destruct (Inv_final hits) as [_ _ _ _ Ha].
    unfold format_hits. simpl answer. rewrite Ha.
    change (first_seen (ids hits)) with ks.
    destruct hits as [ | h t]; [congruence | ].
    assert (Hl : label ks (hit_fileId h) = 1).
    { apply (@label_nth ks 0); [apply first_seen_NoDup | reflexivity]. }
    clearbody ks.
    change (map (passage ks) (h :: t))
      with (passage ks h :: map (passage ks) t).
    change (concat (passage ks h :: map (passage ks) t))
      with (passage ks h ++ concat (map (passage ks) t)).
    unfold passage at 1 3. rewrite Hl.
    change (JSNumber.decimal (Z.of_nat 1)) with ["1"%char].
    rewrite <- !app_assoc, <- !app_comm_cons.
    now apply trim_trimEnd.
Qed.

Lemma combined_answer_format_witness :
  exists r,
    queryRAG Fixtures.env_vector_down
      (mkRAGInput Fixtures.requirements_query (Some Fixtures.company_b) None)
    = Ret r /\
    let ks := first_seen (map hit_fileId
                            (Fixtures.records_of Fixtures.company_b 3)) in
    (forall i f, nth_error ks i = Some f -> label ks f = S i) /\
    (forall h, In h (Fixtures.records_of Fixtures.company_b 3) ->
               1 <= label ks (hit_fileId h) <= length ks) /\
    answer r = trimEnd (concat (map (passage ks)
                 (Fixtures.records_of Fixtures.company_b 3))).
Proof.
  apply (@combined_answer_format Fixtures.env_vector_down
           (mkRAGInput Fixtures.requirements_query
                       (Some Fixtures.company_b) None)
           (Fixtures.records_of Fixtures.company_b 3)).
  - apply (@retrieves_listing Fixtures.env_vector_down _
             Fixtures.company_b [] Fixtures.search_failed
             (mkFetch (Some (map mkObject
                               (Fixtures.records_of Fixtures.company_b 3)))));
      [reflexivity | discriminate | reflexivity | reflexivity | reflexivity].
  - discriminate.
Defined.

(* ===================================================================== *)
(** ** Facts about numbers *)
(* ===================================================================== *)

Section FloatFacts.
Import JSNumber.
Local Open Scope Z_scope.

Lemma shr_1_m mrs : 0 <= shr_m mrs -> shr_m (shr_1 mrs) = shr_m mrs / 2.
Proof.
  destruct mrs as [m r s]. simpl. intros Hm.
  destruct m as [ | [q | q | ] | q]; simpl; try reflexivity; try lia.
  - apply Z.div_unique with (r := 1); lia.
  - apply Z.div_unique with (r := 0); lia.
Qed.

Lemma shr_iter_m : forall p mrs,
  0 <= shr_m mrs ->
  shr_m (iter_pos shr_1 p mrs) = shr_m mrs / 2 ^ Zpos p.
Proof.
  assert (Hpow : forall k, 0 < 2 ^ Zpos k).
  { intros. apply Z.pow_pos_nonneg; lia. }
  assert (Hnn : forall m k, 0 <= m -> 0 <= m / 2 ^ Zpos k).
  { intros. apply Z.div_pos; [assumption | apply Hpow]. }
  assert (Hhalf : forall mrs, 0 <= shr_m mrs -> 0 <= shr_m (shr_1 mrs)).
  { intros mrs Hm. rewrite shr_1_m by assumption. apply Z.div_pos; lia. }
  induction p as [p IH | p IH | ]; intros mrs Hm; cbn [iter_pos].
  - rewrite IH by (rewrite IH by auto; auto).
    rewrite IH by auto. rewrite shr_1_m by assumption.
    pose proof (Hpow p).
    rewrite !Z.div_div by lia.
    f_equal. change (Zpos p~1) with (2 * Zpos p + 1).
    replace (2 * Zpos p + 1) with (1 + Zpos p + Zpos p) by lia.
    rewrite (Z.pow_add_r 2 (1 + Zpos p) (Zpos p)) by lia.
    rewrite (Z.pow_add_r 2 1 (Zpos p)) by lia. lia.
  - rewrite IH by (rewrite IH by auto; auto).
    rewrite IH by auto.
    pose proof (Hpow p).
    rewrite Z.div_div by lia.
    f_equal. change (Zpos p~0) with (2 * Zpos p).
    replace (2 * Zpos p) with (Zpos p + Zpos p) by lia.
    now rewrite (Z.pow_add_r 2 (Zpos p) (Zpos p)) by lia.
  - rewrite shr_1_m by assumption. reflexivity.
Qed.

Lemma digits2_pos_bound : forall p, 2 ^ (Zpos (digits2_pos p) - 1) <= Zpos p.
Proof.
  induction p as [p IH | p IH | ]; simpl digits2_pos.
  - rewrite Pos2Z.inj_succ. change (Zpos p~1) with (2 * Zpos p + 1).
    replace (Z.succ (Zpos (digits2_pos p)) - 1)
      with (Z.succ (Zpos (digits2_pos p) - 1)) by lia.
    rewrite Z.pow_succ_r by lia. lia.
  - rewrite Pos2Z.inj_succ. change (Zpos p~0) with (2 * Zpos p).
    replace (Z.succ (Zpos (digits2_pos p)) - 1)
      with (Z.succ (Zpos (digits2_pos p) - 1)) by lia.
    rewrite Z.pow_succ_r by lia. lia.
  - simpl. lia.
Qed.

Lemma shr_record_of_loc_m m l : shr_m (shr_record_of_loc m l) = m.
Proof. destruct l as [ | [ | | ]]; reflexivity. Qed.

Lemma shr_fexp_pos m e l mrs e' :
  0 < m -> -1074 <= e ->
  shr_fexp prec emax m e l = (mrs, e') ->
  0 < shr_m mrs /\ -1074 <= e'.
Proof.
  intros Hm He. unfold shr_fexp, shr, fexp, emin, prec, emax.
  destruct m as [ | p | p]; try lia. simpl Zdigits2.
  pose proof (digits2_pos_bound p) as Hd.
  set (d := Zpos (digits2_pos p)) in *.
  destruct (Z.max (d + e - 53) (3 - 1024 - 53) - e) as [ | n | n] eqn:En;
    intros H; injection H as <- <-;
    try (rewrite shr_record_of_loc_m; lia).
  rewrite shr_iter_m by (rewrite shr_record_of_loc_m; lia).
  rewrite shr_record_of_loc_m. split; [ | lia].
  apply Z.div_str_pos. split; [apply Z.pow_pos_nonneg; lia | ].
  apply Z.le_trans with (2 ^ (d - 1)); [ | assumption].
  apply Z.pow_le_mono_r; lia.
Qed.

Lemma round_nearest_even_pos m l : 0 < m -> 0 < round_nearest_even m l.
Proof.
  intros Hm. destruct l as [ | [ | | ]]; simpl; try lia.
  destruct (Z.even m); lia.
Qed.

Lemma binary_round_aux_pos m e l :
  0 < m -> -1074 <= e ->
  positive_number (binary_round_aux prec emax false m e l).
Proof.
  intros Hm He. unfold binary_round_aux.
  destruct (shr_fexp prec emax m e l) as [mrs1 e1] eqn:E1.
  destruct (shr_fexp_pos _ Hm He E1) as [Hm1 He1].
  destruct (shr_fexp prec emax _ e1 loc_Exact) as [mrs2 e2] eqn:E2.
  apply shr_fexp_pos in E2; [ | now apply round_nearest_even_pos | assumption].
  destruct E2 as [Hm2 He2].
  destruct (shr_m mrs2); try lia.
  destruct (e2 <=? emax - prec); exact I.
Qed.

Lemma of_Z_positive z : 0 < z -> positive_number (of_Z z).
Proof.
  intros Hz. destruct z as [ | p | p]; try lia.
  unfold of_Z, binary_normalize, binary_round, shl_align.
  set (ex' := fexp prec emax (Zpos (digits2_pos p) + 0)).
  assert (Hex : -1074 <= ex') by (unfold ex', fexp, emin, prec, emax; lia).
  destruct (ex' - 0) eqn:E; apply binary_round_aux_pos; lia.
Qed.

End FloatFacts.

(* ===================================================================== *)
(** ** The keyword router *)
(* ===================================================================== *)

(** A match of [mathPattern]: digits, white space, an operator, white
    space, digits; the two runs of digits are the captures. *)
Lemma mathPattern_M s s' cs cs' :
  M mathPattern s s' cs cs' ->
  exists d1 w1 op w2 d2,
    s = d1 ++ w1 ++ op :: w2 ++ d2 ++ s' /\
    forallb is_digit d1 = true /\ d1 <> [] /\
    forallb is_space w1 = true /\ is_operator op = true /\
    forallb is_space w2 = true /\
    forallb is_digit d2 = true /\ d2 <> [] /\
    cs' = (2, d2) :: (1, d1) :: cs.
Proof.
  unfold mathPattern, ws_star. intros H.
  inversion H as [ | | | ? ? ? s1 ? ? cs1 ? Hg1 H1 | | | | | ]; subst; clear H.
  inversion Hg1 as [ | | | | | | | | ? ? ? ? ? cs0 Hd1 ]; subst; clear Hg1.
  apply M_plus_cls in Hd1. destruct Hd1 as (d1 & -> & Hd1 & Hn1 & ->).
  rewrite firstn_consumed in H1.
  inversion H1 as [ | | | ? ? ? s2 ? ? cs2 ? Hw1 H2 | | | | | ]; subst; clear H1.
  apply M_star_cls in Hw1. destruct Hw1 as (w1 & -> & Hw1 & ->).
  inversion H2 as [ | | | ? ? ? s3 ? ? cs3 ? Hop H3 | | | | | ]; subst; clear H2.
  inversion Hop as [ | | ? op ? ? Hopc | | | | | | ]; subst; clear Hop.
  inversion H3 as [ | | | ? ? ? s4 ? ? cs4 ? Hw2 H4 | | | | | ]; subst; clear H3.
  apply M_star_cls in Hw2. destruct Hw2 as (w2 & -> & Hw2 & ->).
  inversion H4 as [ | | | | | | | | ? ? ? ? ? cs5 Hd2 ]; subst; clear H4.
  apply M_plus_cls in Hd2. destruct Hd2 as (d2 & -> & Hd2 & Hn2 & ->).
  rewrite firstn_consumed.
  exists d1, w1, op, w2, d2. repeat split; assumption.
Qed.

Lemma mathPattern_exec q m :
  exec mathPattern q = Some m ->
  exists pre d1 w1 op w2 d2 post,
    q = pre ++ d1 ++ w1 ++ op :: w2 ++ d2 ++ post /\
    index m = length pre /\
    matched m = d1 ++ w1 ++ op :: w2 ++ d2 /\
    group 1 m = d1 /\ group 2 m = d2 /\
    forallb is_digit d1 = true /\ d1 <> [] /\
    forallb is_space w1 = true /\ is_operator op = true /\
    forallb is_space w2 = true /\
    forallb is_digit d2 = true /\ d2 <> [].
Proof.
  intros H. apply exec_from_sound in H.
  destruct H as (pre & rest & s1 & -> & Hi & HM & Hm).
  apply mathPattern_M in HM.
  destruct HM as (d1 & w1 & op & w2 & d2 & -> & H1 & N1 & W1 & O & W2 & H2
                  & N2 & Hg).
  exists pre, d1, w1, op, w2, d2, s1.
  replace (d1 ++ w1 ++ op :: w2 ++ d2 ++ s1)
    with ((d1 ++ w1 ++ op :: w2 ++ d2) ++ s1) in Hm
    by (rewrite <- !app_assoc; simpl; rewrite <- !app_assoc; reflexivity).
  rewrite firstn_consumed in Hm.
  unfold group. rewrite Hg. simpl.
  repeat split; assumption.
Qed.

Lemma digit_not_operator c : is_digit c = true -> is_operator c = false.
Proof.
  unfold is_digit, is_operator.
  rewrite andb_true_iff, !N.leb_le, !orb_false_iff, !N.eqb_neq. lia.
Qed.

Lemma space_not_operator c : is_space c = true -> is_operator c = false.
Proof.
  unfold is_space, is_operator.
  rewrite !orb_true_iff, andb_true_iff, !N.leb_le, !N.eqb_eq,
    !orb_false_iff, !N.eqb_neq. lia.
Qed.

(** [exec] of a single character class finds the first character of the
    class. *)
Lemma exec_class (p : ascii -> bool) c t : forall w i,
  forallb (fun x => negb (p x)) w = true -> p c = true ->
  exec_from (Cls p) i (w ++ c :: t) = Some (mkMatch (i + length w) [c] []).
Proof.
  induction w as [ | x w IH]; intros i Hw Hc.
  - simpl app. destruct t; unfold exec_from, match_here; simpl mtch;
      rewrite Hc; rewrite Nat.add_0_r; simpl length.
    + reflexivity.
    + replace (S (S (length t)) - S (length t)) with 1 by lia. reflexivity.
  - simpl in Hw. apply andb_true_iff in Hw. destruct Hw as [Hx Hw].
    apply negb_true_iff in Hx.
    simpl app. cbn [exec_from]. unfold match_here. simpl mtch. rewrite Hx.
    rewrite IH by assumption. simpl length. f_equal. f_equal. lia.
Qed.

(** The operator read back from the matched text is the character
    between the two numbers. *)
Lemma operator_of_match d1 w1 op rest :
  forallb is_digit d1 = true -> forallb is_space w1 = true ->
  is_operator op = true ->
  option_map matched (exec operatorPattern (d1 ++ w1 ++ op :: rest))
  = Some [op].
Proof.
  intros H1 HW HO. unfold exec, operatorPattern.
  rewrite app_assoc. rewrite exec_class; [reflexivity | | assumption].
  rewrite forallb_app. apply andb_true_iff. split.
  - rewrite forallb_forall in *. intros x Hx.
    now rewrite digit_not_operator by auto.
  - rewrite forallb_forall in *. intros x Hx.
    now rewrite space_not_operator by auto.
Qed.

Lemma leading_digits_all : forall d,
  forallb is_digit d = true -> JSNumber.leading_digits d = d.
Proof.
  induction d as [ | c d IH]; simpl; [reflexivity | ].
  intros H. apply andb_true_iff in H. destruct H as [-> H].
  now rewrite IH.
Qed.

(** [parseFloat] of a run of digits is the Number for its decimal
    value. *)
Lemma parseFloat_digits d :
  forallb is_digit d = true -> d <> [] ->
  JSNumber.parseFloat d = JSNumber.of_Z (JSNumber.digits_value d).
Proof.
  intros H Hn. unfold JSNumber.parseFloat.
  rewrite leading_digits_all by assumption.
  destruct d; [congruence | reflexivity].
Qed.

Lemma delegatingNode_fallback env st :
  fallback_path env st ->
  delegatingNode env st
  = Ret (keyword_fallback (toLowerCase (userQuery st))).
Proof.
  unfold delegatingNode. intros [[e ->] | (d & -> & [H | H])]; simpl.
  - reflexivity.
  - now rewrite H.
  - rewrite H. now destruct (raw_needsChart d).
Qed.

Lemma apply_operator_arith op a b :
  is_operator op = true -> apply_operator (Some [op]) a b = arith op a b.
Proof.
  unfold is_operator, apply_operator, arith. intros H.
  destruct (code op =? 43)%N; [reflexivity | ].
  destruct (code op =? 45)%N; [reflexivity | ].
  destruct (code op =? 42)%N; [reflexivity | ].
  simpl in H. now rewrite H.
Qed.

Lemma keyword_fallback_math q m :
  exec mathPattern q = Some m -> no_keywords q ->
  exists d1 w1 op w2 d2,
    matched m = d1 ++ w1 ++ op :: w2 ++ d2 /\
    group 1 m = d1 /\ group 2 m = d2 /\
    forallb is_digit d1 = true /\ d1 <> [] /\
    forallb is_space w1 = true /\ is_operator op = true /\
    forallb is_space w2 = true /\
    forallb is_digit d2 = true /\ d2 <> [] /\
    keyword_fallback q
    = decision false false
        (lit "The answer is "
           ++ JSNumber.toString
                (arith op (JSNumber.of_Z (JSNumber.digits_value d1))
                          (JSNumber.of_Z (JSNumber.digits_value d2)))
           ++ lit ".").
Proof.
  intros Hm (Hc & Hr & Hd & He).
  destruct (mathPattern_exec _ Hm)
    as (pre & d1 & w1 & op & w2 & d2 & post & _ & _ & Hmt & G1 & G2 & D1 & N1
        & W1 & O & W2 & D2 & N2).
  exists d1, w1, op, w2, d2. repeat split; try assumption.
  unfold keyword_fallback. rewrite Hc, Hr, Hd, He, Hm. simpl negb. simpl orb.
  cbv iota. simpl andb. cbv iota.
  unfold operator_of. rewrite Hmt, operator_of_match, G1, G2 by assumption.
  rewrite !parseFloat_digits by assumption.
  now rewrite apply_operator_arith.
Qed.

(** C5.  On the keyword path, for a query (lower-cased, as the router
    reads it) in which [mathPattern] finds a match and which has no chart
    keyword and no retrieval phrase: the match is a run of digits [d1], an
    operator [op] and a run of digits [d2], separated by optional white
    space; the decision has both flags false, and its direct answer is
    ["The answer is "], the result printed as JavaScript prints a Number,
    and ["."], where the result is [op] applied, in binary64 arithmetic,
    to the Numbers of [d1] and [d2]. *)
Theorem fallback_direct_math_answer env st m :
  fallback_path env st ->
  exec mathPattern (toLowerCase (userQuery st)) = Some m ->
  no_keywords (toLowerCase (userQuery st)) ->
  exists d1 w1 op w2 d2,
    matched m = d1 ++ w1 ++ op :: w2 ++ d2 /\
    group 1 m = d1 /\ group 2 m = d2 /\
    forallb is_digit d1 = true /\ d1 <> [] /\
    forallb is_space w1 = true /\ is_operator op = true /\
    forallb is_space w2 = true /\
    forallb is_digit d2 = true /\ d2 <> [] /\
    delegatingNode env st
    = Ret (decision false false
             (lit "The answer is "
                ++ JSNumber.toString
                     (arith op (JSNumber.of_Z (JSNumber.digits_value d1))
                               (JSNumber.of_Z (JSNumber.digits_value d2)))
                ++ lit ".")).
Proof.
  intros Hf Hm Hk. rewrite (delegatingNode_fallback Hf).
  destruct (keyword_fallback_math Hm Hk)
    as (d1 & w1 & op & w2 & d2 & H).
  exists d1, w1, op, w2, d2.
  decompose [and] H. repeat split; try assumption. congruence.
Qed.

(** On small integers the four operations and the printing agree with
    integer arithmetic: sums, products, differences and exact quotients of
    the integers up to 24 are printed as integers. *)
Example small_integer_arithmetic :
  forallb (fun a =>
    forallb (fun b =>
      let x := JSNumber.of_Z a in
      let y := JSNumber.of_Z b in
      jsstring_eqb (JSNumber.toString (JSNumber.add x y))
                   (JSNumber.decimal (a + b))
      && jsstring_eqb (JSNumber.toString (JSNumber.mul x y))
                      (JSNumber.decimal (a * b))
      && jsstring_eqb (JSNumber.toString (JSNumber.sub x y))
                      (if (a <? b)%Z
                       then lit "-" ++ JSNumber.decimal (b - a)
                       else JSNumber.decimal (a - b))
      && jsstring_eqb
           (JSNumber.toString
              (JSNumber.div (JSNumber.of_Z (a * (b + 1))) (JSNumber.of_Z (b + 1))))
           (JSNumber.decimal a))
      (map Z.of_nat (seq 0 25)))
    (map Z.of_nat (seq 0 25)) = true.
Proof. vm_compute. reflexivity. Qed.

(** Quotients that are not integers are printed with the shortest digits
    that read back as the same Number. *)
Example fallback_1_div_3 :
  keyword_fallback (toLowerCase (lit "1 / 3"))
  = decision false false (lit "The answer is 0.3333333333333333.").
Proof. vm_compute. reflexivity. Qed.

(** The example of the specification: ["15 + 27"] gives ["The answer is 42."]. *)
Example fallback_15_plus_27 :
  keyword_fallback (toLowerCase (lit "15 + 27"))
  = decision false false (lit "The answer is 42.").
Proof. vm_compute. reflexivity. Qed.

Example fallback_25_plus_37 :
  delegatingNode Fixtures.env_fallback
    (initial_state (lit "What is 25 + 37?") None)
  = Ret (decision false false (lit "The answer is 62.")).
Proof. vm_compute. reflexivity. Qed.

Lemma fallback_direct_math_answer_witness :
  exists d1 w1 op w2 d2,
    matched match_15_27 = d1 ++ w1 ++ op :: w2 ++ d2 /\
    group 1 match_15_27 = d1 /\ group 2 match_15_27 = d2 /\
    forallb is_digit d1 = true /\ d1 <> [] /\
    forallb is_space w1 = true /\ is_operator op = true /\
    forallb is_space w2 = true /\
    forallb is_digit d2 = true /\ d2 <> [] /\
    delegatingNode Fixtures.env_fallback (initial_state calculate_query None)
    = Ret (decision false false
             (lit "The answer is "
                ++ JSNumber.toString
                     (arith op (JSNumber.of_Z (JSNumber.digits_value d1))
                               (JSNumber.of_Z (JSNumber.digits_value d2)))
                ++ lit ".")).
Proof.
  apply (@fallback_direct_math_answer Fixtures.env_fallback
           (initial_state calculate_query None) match_15_27).
  - left. exists Fixtures.quota_exceeded. reflexivity.
  - vm_compute. reflexivity.
  - repeat split; vm_compute; reflexivity.
Defined.

(** C6.  On the keyword path the division is not guarded: when the match
    of [mathPattern] has the operator [/] and a second number whose value
    is zero, the direct answer is ["The answer is Infinity."] if the first
    number is positive and ["The answer is NaN."] if it is zero; the router
    returns in both cases. *)
Theorem division_by_zero_not_guarded env st m :
  fallback_path env st ->
  exec mathPattern (toLowerCase (userQuery st)) = Some m ->
  no_keywords (toLowerCase (userQuery st)) ->
  operator_of m = Some (lit "/") ->
  JSNumber.digits_value (group 2 m) = 0%Z ->
  ((0 < JSNumber.digits_value (group 1 m))%Z ->
   delegatingNode env st
   = Ret (decision false false (lit "The answer is Infinity."))) /\
  (JSNumber.digits_value (group 1 m) = 0%Z ->
   delegatingNode env st
   = Ret (decision false false (lit "The answer is NaN."))).
Proof.
  intros Hf Hm Hk Hop Hz. rewrite (delegatingNode_fallback Hf).
  destruct (keyword_fallback_math Hm Hk)
    as (d1 & w1 & op & w2 & d2 & Hmt & G1 & G2 & D1 & N1 & W1 & O & W2 & D2
        & N2 & ->).
  unfold operator_of in Hop.
  rewrite Hmt, operator_of_match in Hop by assumption.
  injection Hop as ->. rewrite G1. rewrite G2 in Hz. rewrite Hz.
  change (arith "/"%char) with JSNumber.div.
  change (JSNumber.of_Z 0) with (S754_zero false).
  split; intros H1.
  - apply of_Z_positive in H1.
    destruct (JSNumber.of_Z (JSNumber.digits_value d1)) as [ | [ | ] | | [ | ] ? ?];
      try contradiction; reflexivity.
  - rewrite H1. reflexivity.
Qed.

Lemma division_by_zero_not_guarded_witness :
  delegatingNode Fixtures.env_fallback (initial_state (lit "5 / 0") None)
  = Ret (decision false false (lit "The answer is Infinity.")) /\
  delegatingNode Fixtures.env_fallback (initial_state (lit "0/0") None)
  = Ret (decision false false (lit "The answer is NaN.")).
Proof.
  split.
  - apply (@division_by_zero_not_guarded Fixtures.env_fallback
             (initial_state (lit "5 / 0") None) match_5_0).
    + left. exists Fixtures.quota_exceeded. reflexivity.
    + vm_compute. reflexivity.
    + repeat split; vm_compute; reflexivity.
    + vm_compute. reflexivity.
    + reflexivity.
    + reflexivity.
  - apply (@division_by_zero_not_guarded Fixtures.env_fallback
             (initial_state (lit "0/0") None) match_0_0).
    + left. exists Fixtures.quota_exceeded. reflexivity.
    + vm_compute. reflexivity.
    + repeat split; vm_compute; reflexivity.
    + vm_compute. reflexivity.
    + reflexivity.
    + reflexivity.
Defined.

(* ===================================================================== *)
(** ** Further properties of the workflow *)
(* ===================================================================== *)

Lemma chartToolNode_eq env st :
  chartToolNode env st =
  if negb (needsChart st) then Ret no_update
  else bind (chart_invoke env (chart_input st))
            (fun c => Ret (chart_update c)).
Proof. reflexivity. Qed.

Lemma ragAgentNode_eq env st r :
  needsRAG st = true -> queryRAG env (rag_input st) = Ret r ->
  ragAgentNode env st = Ret (rag_update r).
Proof.
  intros Hn Hq. unfold ragAgentNode. rewrite Hn.
  change (negb true) with false. cbv iota.
  fold (rag_input st). rewrite Hq. reflexivity.
Qed.

Lemma aggregatorNode_eq env st :
  aggregatorNode env st =
  Ret (if truthy (finalAnswer st) then no_update
       else answer_update (synthesized env st)).
Proof.
  unfold aggregatorNode, synthesized.
  destruct (truthy (finalAnswer st)); [reflexivity | ].
  destruct (generate env (contextualPrompt st)); reflexivity.
Qed.

Lemma route_decision st c r a :
  route (apply_update st (decision c r a)) =
  if truthy a then []
  else match workers_of c r with
       | [] => [Aggregator]
       | w :: ws => w :: ws
       end.
Proof.
  unfold route. simpl. destruct (truthy a), c, r; reflexivity.
Qed.

Lemma finalAnswer_after_workers st1 c r ch rr :
  finalAnswer (after_workers st1 c r ch rr) = finalAnswer st1.
Proof. destruct c, r; reflexivity. Qed.

(** A run without a direct answer whose workers return: the workers of the
    decision run on the routed state, then the synthesizer, once. *)
Lemma run_graph_completes env st c r a ch rr :
  delegatingNode env st = Ret (decision c r a) ->
  truthy a = false ->
  let st1 := apply_update st (decision c r a) in
  (c = true -> chart_invoke env (chart_input st1) = Ret ch) ->
  queryRAG env (rag_input st1) = Ret rr ->
  let st2 := after_workers st1 c r ch rr in
  let st3 := apply_update st2 (answer_update (synthesized env st2)) in
  trace (run_graph env st) = Delegator :: workers_of c r ++ [Aggregator] /\
  outcome (run_graph env st) = Ret st3.
Proof.
  intros Hd Ha st1 Hc Hq st2 st3.
  rewrite (run_graph_routed _ _ Hd). cbv zeta.
  rewrite route_decision, Ha. fold st1.
  assert (Hagg : forall f s tr em,
            finalAnswer s = a ->
            pregel (S f) env s [Aggregator] tr em =
            let s' := apply_update s (answer_update (synthesized env s)) in
            mkRun (tr ++ [Aggregator]) (em ++ [s']) (Ret s')).
  { intros f s tr em Hs. rewrite pregel_step. simpl run_nodes.
    rewrite aggregatorNode_eq, Hs, Ha. cbv zeta. simpl flat_map. simpl dedup_nodes. simpl fold_left. apply pregel_done. }
  assert (Hfa : finalAnswer st2 = a).
  { unfold st2. rewrite finalAnswer_after_workers. reflexivity. }
  assert (Hrag : r = true -> ragAgentNode env st1 = Ret (rag_update rr)).
  { intros ->. now apply ragAgentNode_eq. }
  assert (Hch : c = true -> chartToolNode env st1 = Ret (chart_update ch)).
  { intros ->. rewrite chartToolNode_eq. simpl. rewrite Hc by reflexivity.
    reflexivity. }
  destruct c, r; simpl workers_of; simpl dedup_nodes.
  - rewrite pregel_step. simpl run_nodes.
    rewrite Hch, Hrag by reflexivity. cbv zeta.
    simpl flat_map. simpl dedup_nodes. rewrite Hagg by exact Hfa.
    split; reflexivity.
  - rewrite pregel_step. simpl run_nodes.
    rewrite Hch by reflexivity. cbv zeta.
    simpl flat_map. simpl dedup_nodes. rewrite Hagg by exact Hfa.
    split; reflexivity.
  - rewrite pregel_step. simpl run_nodes.
    rewrite Hrag by reflexivity. cbv zeta.
    simpl flat_map. simpl dedup_nodes. rewrite Hagg by exact Hfa.
    split; reflexivity.
  - rewrite Hagg by exact Hfa. split; reflexivity.
Qed.

Lemma run_graph_direct env st c r a :
  delegatingNode env st = Ret (decision c r a) ->
  truthy a = true ->
  run_graph env st =
  mkRun [Delegator] [st; apply_update st (decision c r a)]
        (Ret (apply_update st (decision c r a))).
Proof.
  intros Hd Ha. rewrite (run_graph_routed _ _ Hd). cbv zeta.
  rewrite route_decision, Ha. apply pregel_done.
Qed.

(** A chart generator that throws ends the run, whether or not the
    retrieval worker was dispatched with it. *)
Lemma chart_failure_outcome env st r a e :
  delegatingNode env st = Ret (decision true r a) ->
  truthy a = false ->
  chart_invoke env (chart_input (apply_update st (decision true r a)))
    = Throw e ->
  trace (run_graph env st) = Delegator :: workers_of true r /\
  outcome (run_graph env st) = Throw e.
Proof.
  intros Hd Ha Hc. rewrite (run_graph_routed _ _ Hd). cbv zeta.
  rewrite route_decision, Ha.
  destruct r; simpl workers_of; simpl dedup_nodes; rewrite pregel_step;
    simpl run_nodes; rewrite chartToolNode_eq; simpl negb; cbv iota;
    rewrite Hc; simpl bind; cbv iota; split; reflexivity.
Qed.

(** The chart type the node chooses is one the schema accepts. *)
Lemma chart_kind_in_schema q :
  existsb (jsstring_eqb (chart_kind q)) ChartJSTool.chart_types = true.
Proof.
  unfold chart_kind.
  destruct (test (Str "line") q); [reflexivity | ].
  destruct (test (Str "pie") q); [reflexivity | ].
  destruct (test (Str "doughnut") q); reflexivity.
Qed.

(** The repository's generator returns on every input the chart node
    builds: the type passes the schema, and without [dataPoints] the four
    points of the default are made when no mock series is chosen. *)
Lemma chartTool_invoke_returns random config_text st :
  exists cfg,
    chartTool_invoke random config_text (chart_input st)
    = Ret (mkChartOutput (chartType (chart_input st)) (config_text cfg)
                         (userQuery st)).
Proof.
  unfold chartTool_invoke. cbn [chart_input chartType chart_description].
  rewrite chart_kind_in_schema.
  unfold ChartJSTool._call, ChartJSTool.mock_data.
  cbn [ChartJSTool.in_description ChartJSTool.in_dataPoints
       ChartJSTool.in_chartType].
  destruct (includes _ (lit "revenue") || includes _ (lit "quarterly"));
    [eexists; reflexivity | ].
  destruct (includes _ (lit "growth") || includes _ (lit "trend"));
    [eexists; reflexivity | ].
  destruct (includes _ (lit "share") || includes _ (lit "market"));
    eexists; reflexivity.
Qed.



(** X1.  When the chart generator returns on every input, every run ends
    in a terminal state: after the router come the workers of its decision
    and then the synthesizer, or nothing when the router answered itself;
    each worker that ran has added one entry to [allData]. *)
Theorem run_ends_when_chart_returns env st :
  (forall p, exists c, chart_invoke env p = Ret c) ->
  exists c r a final,
    delegatingNode env st = Ret (decision c r a) /\
    outcome (run_graph env st) = Ret final /\
    trace (run_graph env st)
      = (if truthy a then [Delegator]
         else Delegator :: workers_of c r ++ [Aggregator]) /\
    length (allData final)
      = length (allData st)
        + (if truthy a then 0 else length (workers_of c r)) /\
    (truthy a = true -> finalAnswer final = a).
Proof.
  intros Hchart. destruct (delegatingNode_returns env st) as (c & r & a & Hd).
  exists c, r, a. destruct (truthy a) eqn:Ha.
  - rewrite (run_graph_direct _ _ Hd Ha). eexists.
    split; [exact Hd | ]. split; [reflexivity | ].
    split; [reflexivity | ]. split; [simpl; lia | intros _; reflexivity].
  - set (st1 := apply_update st (decision c r a)).
    destruct (Hchart (chart_input st1)) as [ch Hch].
    destruct (queryRAG_returns env (rag_input st1)) as [rr Hrr].
    destruct (@run_graph_completes env st c r a ch rr Hd Ha
                (fun _ => Hch) Hrr) as [Ht Ho].
    eexists. split; [exact Hd | ]. split; [exact Ho | ].
    split; [exact Ht | ]. split; [ | discriminate].
    destruct c, r; simpl; rewrite ?length_app; simpl; lia.
Qed.

Lemma run_ends_when_chart_returns_witness :
  exists c r a final,
    delegatingNode Fixtures.env_fallback
      (initial_state Fixtures.chart_and_rag_query (Some Fixtures.company_b))
    = Ret (decision c r a) /\
    outcome (run_graph Fixtures.env_fallback
      (initial_state Fixtures.chart_and_rag_query (Some Fixtures.company_b)))
    = Ret final /\
    trace (run_graph Fixtures.env_fallback
      (initial_state Fixtures.chart_and_rag_query (Some Fixtures.company_b)))
      = (if truthy a then [Delegator]
         else Delegator :: workers_of c r ++ [Aggregator]) /\
    length (allData final)
      = length (allData
          (initial_state Fixtures.chart_and_rag_query
                         (Some Fixtures.company_b)))
        + (if truthy a then 0 else length (workers_of c r)) /\
    (truthy a = true -> finalAnswer final = a).
Proof.
  apply (@run_ends_when_chart_returns Fixtures.env_fallback
           (initial_state Fixtures.chart_and_rag_query
                          (Some Fixtures.company_b))).
  intros p. eexists. reflexivity.
Defined.

(** X2.  The only exception that ends a run is the chart generator's: a
    run ends with the exception [e] exactly when the router gave no direct
    answer, set [needsChart], and the generator threw [e] on the input the
    chart node gave it. *)
Theorem run_aborts_iff_chart_throws env st e :
  outcome (run_graph env st) = Throw e <->
  exists c r a,
    delegatingNode env st = Ret (decision c r a) /\
    truthy a = false /\ c = true /\
    chart_invoke env (chart_input (apply_update st (decision c r a)))
      = Throw e.
Proof.
  split.
  - intros Hout.
    destruct (delegatingNode_returns env st) as (c & r & a & Hd).
    exists c, r, a. split; [exact Hd | ].
    destruct (truthy a) eqn:Ha.
    { rewrite (run_graph_direct _ _ Hd Ha) in Hout. discriminate. }
    set (st1 := apply_update st (decision c r a)) in *.
    destruct (queryRAG_returns env (rag_input st1)) as [rr Hrr].
    destruct c.
    + destruct (chart_invoke env (chart_input st1)) as [ch | e'] eqn:Hch.
      * destruct (@run_graph_completes env st true r a ch rr Hd Ha
                    (fun _ => Hch) Hrr) as [_ Ho].
        rewrite Ho in Hout. discriminate.
      * destruct (@chart_failure_outcome env st r a e' Hd Ha Hch) as [_ Ho].
        rewrite Ho in Hout. injection Hout as ->. auto.
    + assert (Hc : false = true ->
                   chart_invoke env (chart_input st1) = Ret no_chart)
        by discriminate.
      destruct (@run_graph_completes env st false r a no_chart rr Hd Ha
                  Hc Hrr) as [_ Ho].
      rewrite Ho in Hout. discriminate.
  - intros (c & r & a & Hd & Ha & -> & Hch).
    apply (@chart_failure_outcome env st r a e Hd Ha Hch).
Qed.

Lemma run_aborts_iff_chart_throws_witness :
  ~ exists e,
      outcome (run_graph env_chartTool
                 (initial_state (lit "plot the sales data") None))
      = Throw e.
Proof.
  intros [e H].
  apply (proj1 (run_aborts_iff_chart_throws env_chartTool
                  (initial_state (lit "plot the sales data") None) e)) in H.
  destruct H as (c & r & a & _ & _ & _ & Ht).
  destruct (chartTool_invoke_returns (fun i => Z.of_nat (7 * i))
              (fun _ => lit "{}")
              (apply_update (initial_state (lit "plot the sales data") None)
                            (decision c r a))) as [cfg Hret].
  change (chart_invoke env_chartTool)
    with (chartTool_invoke (fun i => Z.of_nat (7 * i)) (fun _ => lit "{}"))
    in Ht.
  rewrite Hret in Ht. discriminate Ht.
Defined.

(** X3.  When both workers are dispatched and the chart generator
    returns, both outputs are in the terminal state: the chart result, the
    retrieval result, one [allData] entry for each, and an answer
    synthesized from the state that holds both.  Each worker ran on the
    routed state, so neither saw what the other wrote. *)
Theorem both_workers_outputs_present env st a ch :
  delegatingNode env st = Ret (decision true true a) ->
  truthy a = false ->
  let st1 := apply_update st (decision true true a) in
  chart_invoke env (chart_input st1) = Ret ch ->
  exists rr final,
    queryRAG env (rag_input st1) = Ret rr /\
    outcome (run_graph env st) = Ret final /\
    trace (run_graph env st) = [Delegator; Chart; Rag; Aggregator] /\
    chartResult final = Some ch /\ ragResult final = Some rr /\
    Permutation (allData final)
      (ReferenceListPayload (references rr) :: ChartPayload ch
         :: allData st) /\
    finalAnswer final = synthesized env (after_workers st1 true true ch rr).
Proof.
  intros Hd Ha st1 Hch.
  destruct (queryRAG_returns env (rag_input st1)) as [rr Hrr].
  destruct (@run_graph_completes env st true true a ch rr Hd Ha
              (fun _ => Hch) Hrr) as [Ht Ho].
  exists rr. eexists. split; [exact Hrr | ]. split; [exact Ho | ].
  split; [exact Ht | ]. repeat split.
  simpl allData.
  rewrite <- app_assoc. simpl.
  apply Permutation_sym.
  change (ReferenceListPayload (references rr) :: ChartPayload ch
            :: allData st)
    with ([ReferenceListPayload (references rr); ChartPayload ch]
            ++ allData st).
  rewrite Permutation_app_comm. apply Permutation_app_head. apply perm_swap.
Qed.

Lemma both_workers_outputs_present_witness :
  let st := initial_state Fixtures.chart_and_rag_query
                          (Some Fixtures.company_b) in
  let st1 := apply_update st (decision true true []) in
  let ch := mkChartOutput (lit "bar") (lit "{}")
                          Fixtures.chart_and_rag_query in
  exists rr final,
    queryRAG Fixtures.env_fallback (rag_input st1) = Ret rr /\
    outcome (run_graph Fixtures.env_fallback st) = Ret final /\
    trace (run_graph Fixtures.env_fallback st)
      = [Delegator; Chart; Rag; Aggregator] /\
    chartResult final = Some ch /\ ragResult final = Some rr /\
    Permutation (allData final)
      (ReferenceListPayload (references rr) :: ChartPayload ch
         :: allData st) /\
    finalAnswer final
      = synthesized Fixtures.env_fallback
          (after_workers st1 true true ch rr).
Proof.
  apply (@both_workers_outputs_present Fixtures.env_fallback
           (initial_state Fixtures.chart_and_rag_query
                          (Some Fixtures.company_b))
           [] (mkChartOutput (lit "bar") (lit "{}")
                             Fixtures.chart_and_rag_query));
    vm_compute; reflexivity.
Defined.

(** X4.  When the synthesis model throws, the run still ends in a terminal
    state: the answer is the fixed apology, which is not empty, and what
    the workers gathered is kept: one [allData] entry for each worker that
    ran, and their results. *)
Theorem synthesis_failure_keeps_payload env st c r a :
  delegatingNode env st = Ret (decision c r a) ->
  truthy a = false ->
  (forall p, exists e, generate env p = Throw e) ->
  (forall p, exists ch, chart_invoke env p = Ret ch) ->
  exists final,
    outcome (run_graph env st) = Ret final /\
    finalAnswer final = synthesis_apology /\
    truthy (finalAnswer final) = true /\
    length (allData final) = length (allData st) + length (workers_of c r) /\
    (c = true -> chartResult final <> None) /\
    (r = true -> ragResult final <> None).
Proof.
  intros Hd Ha Hgen Hchart.
  set (st1 := apply_update st (decision c r a)).
  destruct (Hchart (chart_input st1)) as [ch Hch].
  destruct (queryRAG_returns env (rag_input st1)) as [rr Hrr].
  destruct (@run_graph_completes env st c r a ch rr Hd Ha
              (fun _ => Hch) Hrr) as [_ Ho].
  eexists. split; [exact Ho | ].
  assert (Hs : forall s, synthesized env s = synthesis_apology).
  { intros s. unfold synthesized.
    destruct (Hgen (contextualPrompt s)) as [e ->]. reflexivity. }
  simpl finalAnswer. rewrite Hs.
  split; [reflexivity | ]. split; [reflexivity | ].
  split; [ | split].
  - destruct c, r; simpl; rewrite ?length_app; simpl; lia.
  - intros ->. destruct r; simpl; discriminate.
  - intros ->. destruct c; simpl; discriminate.
Qed.

Lemma synthesis_failure_keeps_payload_witness :
  exists final,
    outcome (run_graph env_synth_down
               (initial_state Fixtures.chart_and_rag_query
                              (Some Fixtures.company_b))) = Ret final /\
    finalAnswer final = synthesis_apology /\
    truthy (finalAnswer final) = true /\
    length (allData final)
      = length (allData (initial_state Fixtures.chart_and_rag_query
                                       (Some Fixtures.company_b)))
        + length (workers_of true true) /\
    (true = true -> chartResult final <> None) /\
    (true = true -> ragResult final <> None).
Proof.
  apply (@synthesis_failure_keeps_payload env_synth_down
           (initial_state Fixtures.chart_and_rag_query
                          (Some Fixtures.company_b)) true true []).
  - vm_compute. reflexivity.
  - reflexivity.
  - intros p. eexists. reflexivity.
  - intros p. eexists. reflexivity.
Defined.

(** X5.  On the keyword path a query without a chart keyword, a retrieval
    phrase or an arithmetic match (the empty query among them) sets no
    flag and gets no direct answer: the synthesizer runs right after the
    router, on a prompt without worker context, and [allData] and the
    results are left as they were. *)
Theorem unmatched_query_goes_to_synthesizer env st :
  fallback_path env st ->
  no_keywords (toLowerCase (userQuery st)) ->
  exec mathPattern (toLowerCase (userQuery st)) = None ->
  let st1 := apply_update st (decision false false []) in
  delegatingNode env st = Ret (decision false false []) /\
  trace (run_graph env st) = [Delegator; Aggregator] /\
  exists final,
    outcome (run_graph env st) = Ret final /\
    finalAnswer final = synthesized env st1 /\
    allData final = allData st /\
    chartResult final = chartResult st /\ ragResult final = ragResult st /\
    needsChart final = false /\ needsRAG final = false.
Proof.
  intros Hf (Hc & Hr & Hd & He) Hm st1.
  assert (Hdel : delegatingNode env st = Ret (decision false false [])).
  { rewrite (delegatingNode_fallback Hf). unfold keyword_fallback.
    rewrite Hc, Hr, Hd, He, Hm. reflexivity. }
  assert (Hnc : false = true ->
                chart_invoke env (chart_input st1) = Ret no_chart)
    by discriminate.
  destruct (queryRAG_returns env (rag_input st1)) as [rr Hrr].
  destruct (@run_graph_completes env st false false [] no_chart rr
              Hdel eq_refl Hnc Hrr) as [Ht Ho].
  split; [exact Hdel | ]. split; [exact Ht | ].
  eexists. split; [exact Ho | ]. repeat split.
Qed.

Lemma unmatched_query_goes_to_synthesizer_witness :
  let st := initial_state [] None in
  let st1 := apply_update st (decision false false []) in
  delegatingNode Fixtures.env_fallback st = Ret (decision false false []) /\
  trace (run_graph Fixtures.env_fallback st) = [Delegator; Aggregator] /\
  exists final,
    outcome (run_graph Fixtures.env_fallback st) = Ret final /\
    finalAnswer final = synthesized Fixtures.env_fallback st1 /\
    allData final = allData st /\
    chartResult final = chartResult st /\ ragResult final = ragResult st /\
    needsChart final = false /\ needsRAG final = false.
Proof.
  apply (@unmatched_query_goes_to_synthesizer Fixtures.env_fallback
           (initial_state [] None)).
  - left. exists Fixtures.quota_exceeded. reflexivity.
  - repeat split; vm_compute; reflexivity.
  - vm_compute. reflexivity.
Defined.

(** The three kinds of result of [queryRAG]. *)
Lemma queryRAG_cases env input r :
  queryRAG env input = Ret r ->
  r = retrieval_error \/ r = no_information \/
  exists h t, r = format_hits (h :: t).
Proof.
  unfold queryRAG, queryRAG_try.
  destruct (tenant input) as [[ | c tn] | ]; simpl;
    try (intros H; injection H as <-; now left).
  destruct (embedQuery env (query input)) as [v | e]; simpl;
    try (intros H; injection H as <-; now left).
  destruct (search env v (c :: tn) (limit input)) as [[ | o] | e]; simpl;
    try (intros H; injection H as <-; now left).
  destruct (or_empty o) as [ | h t]; simpl; intros H; injection H as <-.
  - right. now left.
  - right. right. eauto.
Qed.

(** X6.  Whenever the retrieval node runs it returns, stores the result of
    [queryRAG] and adds exactly one entry to [allData]: the reference list
    of that result, which is empty when nothing was retrieved.  The node's
    own error placeholder is never stored, because [queryRAG] does not
    throw. *)
Theorem rag_node_one_payload env st :
  needsRAG st = true ->
  exists r,
    queryRAG env (rag_input st) = Ret r /\
    ragAgentNode env st = Ret (rag_update r) /\
    ragResult (apply_update st (rag_update r)) = Some r /\
    allData (apply_update st (rag_update r))
      = allData st ++ [ReferenceListPayload (references r)] /\
    (rawData r = [] -> references r = []) /\
    r <> rag_placeholder.
Proof.
  intros Hn. destruct (queryRAG_returns env (rag_input st)) as [r Hr].
  exists r. split; [exact Hr | ].
  split; [now apply ragAgentNode_eq | ].
  split; [reflexivity | ]. split; [reflexivity | ].
  destruct (queryRAG_cases _ _ Hr) as [-> | [-> | (h & t & ->)]].
  - split; [reflexivity | ]. intros H. vm_compute in H. discriminate.
  - split; [reflexivity | ]. intros H. vm_compute in H. discriminate.
  - split; [discriminate | ].
    intros H. apply (f_equal rawData) in H. discriminate.
Qed.

Lemma rag_node_one_payload_witness :
  let st := apply_update (initial_state Fixtures.requirements_query None)
                         (decision false true []) in
  exists r,
    queryRAG Fixtures.env_embed_down (rag_input st) = Ret r /\
    ragAgentNode Fixtures.env_embed_down st = Ret (rag_update r) /\
    ragResult (apply_update st (rag_update r)) = Some r /\
    allData (apply_update st (rag_update r))
      = allData st ++ [ReferenceListPayload (references r)] /\
    (rawData r = [] -> references r = []) /\
    r <> rag_placeholder.
Proof.
  apply (@rag_node_one_payload Fixtures.env_embed_down
           (apply_update (initial_state Fixtures.requirements_query None)
                         (decision false true []))).
  reflexivity.
Defined.

(* ===================================================================== *)
(** ** Further properties of the router and of the chart node *)
(* ===================================================================== *)

(** A literal pattern matches where the text starts with the literal. *)
Lemma mtch_Lit (R : Type) p : forall s cs (k : jsstring -> caps -> option R),
  mtch (Lit p) s cs k
  = if startsWith s p then k (skipn (length p) s) cs else None.
Proof.
  induction p as [ | c p IH]; intros s cs k; simpl.
  - now destruct s.
  - destruct s as [ | a s]; [reflexivity | ].
    rewrite IH. simpl.
    destruct (Ascii.eqb_spec a c) as [-> | Hne].
    + now rewrite Ascii.eqb_refl.
    + destruct (Ascii.eqb_spec c a) as [-> | _]; [congruence | reflexivity].
Qed.

(** [test] of a literal pattern is [includes]. *)
Lemma test_Lit p s : test (Lit p) s = includes s p.
Proof.
  unfold test, exec. generalize 0.
  induction s as [ | a s IH]; intros i; cbn [exec_from];
    unfold match_here; rewrite mtch_Lit.
  - destruct p; reflexivity.
  - change (includes (a :: s) p)
      with (startsWith (a :: s) p || includes s p).
    destruct (startsWith (a :: s) p); [reflexivity | apply IH].
Qed.

(** X7.  The chart node gives the generator the query as it was typed as
    the description, and a chart type that is one of the four the
    generator's schema accepts: ["line"] when the lower-cased query
    contains it, else ["pie"], else ["doughnut"], else ["bar"]. *)
Theorem chart_node_kind env st :
  needsChart st = true ->
  let q := toLowerCase (userQuery st) in
  chartToolNode env st
    = bind (chart_invoke env (chart_input st))
           (fun c => Ret (chart_update c)) /\
  chart_description (chart_input st) = userQuery st /\
  In (chartType (chart_input st)) ChartJSTool.chart_types /\
  chartType (chart_input st)
    = (if includes q (lit "line") then lit "line"
       else if includes q (lit "pie") then lit "pie"
       else if includes q (lit "doughnut") then lit "doughnut"
       else lit "bar").
Proof.
  intros Hn q. split; [ | split; [reflexivity | ]].
  - rewrite chartToolNode_eq, Hn. reflexivity.
  - unfold chart_input. simpl chartType. fold q. unfold chart_kind, Str.
    rewrite !test_Lit.
    destruct (includes q (lit "line")); [simpl; auto | ].
    destruct (includes q (lit "pie")); [simpl; auto | ].
    destruct (includes q (lit "doughnut")); simpl; auto 6.
Qed.

Lemma chart_node_kind_witness :
  let st := apply_update (initial_state pie_of_line_query None)
                         (decision true false []) in
  chartToolNode Fixtures.env_fallback st
    = bind (chart_invoke Fixtures.env_fallback
              (mkChartInput (lit "line") pie_of_line_query))
           (fun c => Ret (chart_update c)).
Proof.
  pose (st := apply_update (initial_state pie_of_line_query None)
                           (decision true false [])).
  destruct (@chart_node_kind Fixtures.env_fallback st eq_refl)
    as (H & _ & _ & Hk).
  exact H.
Defined.

(** X8.  On the keyword path a direct answer and a worker flag never go
    together.  [needsChart] is set exactly when a chart keyword matches.
    An arithmetic match overrides the retrieval phrases: [needsRAG] is
    never set when the arithmetic pattern matches, and the direct answer is
    non-empty exactly when the arithmetic pattern matches and no chart
    keyword does, whatever retrieval phrases the query has; both flags are
    then false. *)
Theorem fallback_decision_exclusive q :
  exists ch rg a,
    keyword_fallback q = decision ch rg a /\
    ch = test chartKeywords q /\
    (rg = true -> test mathPattern q = false) /\
    (truthy a = true <->
       test mathPattern q = true /\ test chartKeywords q = false) /\
    (truthy a = true -> ch = false /\ rg = false).
Proof.
  assert (Hm : test mathPattern q
               = match exec mathPattern q with
                 | Some _ => true
                 | None => false
                 end) by reflexivity.
  unfold keyword_fallback.
  destruct (exec mathPattern q) as [m | ]; rewrite !Hm;
    destruct (test chartKeywords q), (test ragKeywords q),
      (test documentKeywords q), (test explainPattern q);
    cbn [negb andb orb]; eexists _, _, _;
    (split; [reflexivity | ]); (split; [reflexivity | ]);
    (split; [intros H; first [discriminate H | reflexivity] | ]);
    cbn [truthy lit list_ascii_of_string app];
    intuition (try discriminate; try congruence).
Qed.

Lemma fallback_decision_exclusive_witness :
  exists a,
    keyword_fallback
      (toLowerCase (lit "What is 3 - 10 in the documentation?"))
    = decision false false a /\
    truthy a = true.
Proof.
  destruct (fallback_decision_exclusive
              (toLowerCase (lit "What is 3 - 10 in the documentation?")))
    as (ch & rg & a & E & _ & _ & Ha & Hex).
  assert (H : truthy a = true)
    by (apply Ha; split; vm_compute; reflexivity).
  destruct (Hex H) as [Hc Hr]. rewrite Hc, Hr in E.
  exists a. split; [exact E | exact H].
Defined.

(** A query with a retrieval phrase and an arithmetic match is answered
    directly. *)
Example arithmetic_overrides_retrieval :
  keyword_fallback (toLowerCase (lit "What is 3 - 10 in the documentation?"))
  = decision false false (lit "The answer is -7.").
Proof. vm_compute. reflexivity. Qed.

Lemma lower_char_idem c : lower_char (lower_char c) = lower_char c.
Proof.
  destruct c as [[] [] [] [] [] [] [] []]; reflexivity.
Qed.

Lemma toLowerCase_idem s : toLowerCase (toLowerCase s) = toLowerCase s.
Proof.
  unfold toLowerCase. rewrite map_map. apply map_ext.
  intros c. apply lower_char_idem.
Qed.

(** X9.  Keyword routing and the choice of the chart type do not depend
    on the case of the query: the query and its lower-cased text get the
    same decision and the same chart type. *)
Theorem routing_case_insensitive env st st' :
  userQuery st' = toLowerCase (userQuery st) ->
  fallback_path env st -> fallback_path env st' ->
  delegatingNode env st' = delegatingNode env st /\
  chartType (chart_input st') = chartType (chart_input st).
Proof.
  intros Hq Hf Hf'.
  rewrite (delegatingNode_fallback Hf), (delegatingNode_fallback Hf').
  unfold chart_input. simpl. rewrite Hq, toLowerCase_idem. split; reflexivity.
Qed.

Lemma routing_case_insensitive_witness :
  delegatingNode Fixtures.env_fallback
    (initial_state (lit "plot the sales as a pie") None)
  = delegatingNode Fixtures.env_fallback
      (initial_state (lit "Plot The SALES As A Pie") None) /\
  chartType (chart_input (initial_state (lit "plot the sales as a pie") None))
  = chartType (chart_input
                 (initial_state (lit "Plot The SALES As A Pie") None)).
Proof.
  apply (@routing_case_insensitive Fixtures.env_fallback
           (initial_state (lit "Plot The SALES As A Pie") None)
           (initial_state (lit "plot the sales as a pie") None)).
  - reflexivity.
  - left. exists Fixtures.quota_exceeded. reflexivity.
  - left. exists Fixtures.quota_exceeded. reflexivity.
Defined.

(* ===================================================================== *)
(** ** Further properties of the retrieval worker *)
(* ===================================================================== *)

(** X10.  [queryRAG] reads the store for the tenant of its input only: two
    environments whose embedding service and whose searches for that tenant
    answer alike give the same result, whatever they hold for other
    tenants. *)
Theorem queryRAG_tenant_scoped env1 env2 input tn :
  tenant input = Some tn ->
  same_for_tenant env1 env2 tn ->
  queryRAG env1 input = queryRAG env2 input.
Proof.
  intros Ht (He & Hv & Hf). unfold queryRAG, queryRAG_try, search.
  rewrite Ht. destruct tn as [ | c tn]; [reflexivity | ].
  rewrite He. destruct (embedQuery env2 (query input)) as [v | e];
    [ | reflexivity].
  simpl. rewrite Hv, Hf. reflexivity.
Qed.

Lemma queryRAG_tenant_scoped_witness :
  queryRAG Fixtures.env_fallback
    (mkRAGInput Fixtures.requirements_query (Some Fixtures.company_a) None)
  = queryRAG env_only_company_a
      (mkRAGInput Fixtures.requirements_query (Some Fixtures.company_a) None).
Proof.
  apply (@queryRAG_tenant_scoped Fixtures.env_fallback env_only_company_a
           (mkRAGInput Fixtures.requirements_query
                       (Some Fixtures.company_a) None)
           Fixtures.company_a).
  - reflexivity.
  - repeat split.
Defined.

Lemma first_seen_length : forall l, length (first_seen l) <= length l.
Proof.
  induction l as [ | x l IH]; simpl; [lia | ].
  pose proof (filter_length_le
                (fun y => negb (jsstring_eqb y x)) (first_seen l)).
  lia.
Qed.

Lemma references_ids hits :
  map fileId (references (format_hits hits)) = first_seen (ids hits).
Proof.
  rewrite format_hits_references, map_map.
  destruct (Inv_final hits) as [Hk _ _ _ _]. exact Hk.
Qed.

(** X11.  The labels of the combined answer point into the reference
    list: the reference at place [i] (from zero) has label [i + 1], the
    passage of a hit carries the label of the reference for the hit's
    [fileId], and there are at most as many references as hits. *)
Theorem citations_match_references env input hits :
  retrieves env input hits -> hits <> [] ->
  exists r,
    queryRAG env input = Ret r /\
    let ks := first_seen (map hit_fileId hits) in
    length (references r) <= length hits /\
    (forall i ref, nth_error (references r) i = Some ref ->
                   label ks (fileId ref) = S i) /\
    (forall h, In h hits ->
       exists ref,
         nth_error (references r) (label ks (hit_fileId h) - 1) = Some ref /\
         fileId ref = hit_fileId h).
Proof.
  intros Hret Hne. exists (format_hits hits). split.
  { rewrite (queryRAG_retrieves Hret). destruct hits; congruence. }
  intros ks.
  pose proof (references_ids hits) as Hids. fold ks in Hids.
  change (first_seen (ids hits)) with ks in Hids.
  split; [ | split].
  - rewrite <- (length_map fileId), Hids. unfold ks.
    rewrite <- (length_map hit_fileId hits). apply first_seen_length.
  - intros i ref Hi.
    apply (@label_nth ks i (fileId ref)); [apply first_seen_NoDup | ].
    rewrite <- Hids. now apply map_nth_error.
  - intros h Hin.
    assert (Hf : In (hit_fileId h) ks).
    { apply first_seen_In. now apply in_map. }
    apply In_nth_error in Hf. destruct Hf as [i Hi].
    rewrite (@label_nth ks i (hit_fileId h) (first_seen_NoDup _) Hi).
    replace (S i - 1) with i by lia.
    rewrite <- Hids, nth_error_map in Hi.
    destruct (nth_error (references (format_hits hits)) i) as [ref | ];
      [ | discriminate].
    exists ref. split; [reflexivity | ]. simpl in Hi. congruence.
Qed.

Lemma citations_match_references_witness :
  exists r,
    queryRAG Fixtures.env_fallback
      (mkRAGInput Fixtures.requirements_query (Some Fixtures.company_b) None)
    = Ret r /\
    let ks := first_seen (map hit_fileId
                            (Fixtures.records_of Fixtures.company_b 3)) in
    length (references r)
      <= length (Fixtures.records_of Fixtures.company_b 3) /\
    (forall i ref, nth_error (references r) i = Some ref ->
                   label ks (fileId ref) = S i) /\
    (forall h, In h (Fixtures.records_of Fixtures.company_b 3) ->
       exists ref,
         nth_error (references r) (label ks (hit_fileId h) - 1) = Some ref /\
         fileId ref = hit_fileId h).
Proof.
  apply (@citations_match_references Fixtures.env_fallback
           (mkRAGInput Fixtures.requirements_query
                       (Some Fixtures.company_b) None)
           (Fixtures.records_of Fixtures.company_b 3)).
  - apply (@retrieves_primary Fixtures.env_fallback _
             Fixtures.company_b []
             (Some (Fixtures.records_of Fixtures.company_b 3)));
      [reflexivity | discriminate | reflexivity | reflexivity].
  - discriminate.
Defined.

(** X12.  [runQuery] has a response to print whenever the chart generator
    returns: its answer is the final answer of the run, and its data holds
    one entry for each worker that ran, at most two. *)
Theorem runQuery_response env q t :
  (forall p, exists c, chart_invoke env p = Ret c) ->
  exists resp final,
    runQuery env q t = Some resp /\
    outcome (run_graph env (initial_state q t)) = Ret final /\
    response_answer resp = finalAnswer final /\
    response_data resp = allData final /\
    length (response_data resp) <= 2.
Proof.
  intros Hc. unfold runQuery.
  destruct (delegatingNode_returns env (initial_state q t))
    as (c & r & a & Hd).
  destruct (truthy a) eqn:Ha.
  - rewrite (run_graph_direct _ _ Hd Ha). simpl.
    eexists _, _. repeat split. simpl. lia.
  - set (st1 := apply_update (initial_state q t) (decision c r a)).
    destruct (Hc (chart_input st1)) as [ch Hch].
    destruct (queryRAG_returns env (rag_input st1)) as [rr Hrr].
    destruct (@run_graph_completes env (initial_state q t) c r a ch rr
                Hd Ha (fun _ => Hch) Hrr) as [_ Ho].
    rewrite Ho. eexists _, _. repeat split.
    destruct c, r; simpl; lia.
Qed.

Lemma runQuery_response_witness :
  exists resp final,
    runQuery Fixtures.env_fallback Fixtures.requirements_query None
      = Some resp /\
    outcome (run_graph Fixtures.env_fallback
               (initial_state Fixtures.requirements_query None)) = Ret final /\
    response_answer resp = finalAnswer final /\
    response_data resp = allData final /\
    length (response_data resp) <= 2.
Proof.
  apply (@runQuery_response Fixtures.env_fallback
           Fixtures.requirements_query None).
  intros p. eexists. reflexivity.
Defined.

(* ===================================================================== *)
(** ** Properties of the chart generator *)
(* ===================================================================== *)

Section ChartFacts.
Import ChartJSTool.

Lemma array_from_cases (A : Type) n (f : nat -> A) :
  ((n < 2 ^ 32)%Z /\ array_from n f = Ret (map f (seq 0 (Z.to_nat n)))) \/
  ((2 ^ 32 <= n)%Z /\ array_from n f = Throw invalid_array_length).
Proof.
  unfold array_from. destruct (Z.leb_spec (2 ^ 32) n); [right | left]; auto.
Qed.

Lemma array_from_length (A : Type) n (f : nat -> A) l :
  array_from n f = Ret l -> length l = Z.to_nat n.
Proof.
  destruct (array_from_cases n f) as [[_ ->] | [_ ->]]; [ | discriminate].
  intros H. injection H as <-. now rewrite length_map, length_seq.
Qed.

(** X13.  The generator returns a chart unless more than [2^32 - 1] points
    are asked for.  Every chart it returns has one dataset with as many
    values as the chart has labels.  The type and the description of the
    input are passed through unchanged, the description is also the title,
    and the dataset gets the list of colours exactly when the type is
    ["pie"] or ["doughnut"]. *)
Theorem chart_output_shape random input :
  let n := match in_dataPoints input with Some n => n | None => 4%Z end in
  ((n < 2 ^ 32)%Z -> exists out, _call random input = Ret out) /\
  forall out, _call random input = Ret out ->
    let cfg := out_chartConfig out in
    out_type out = in_chartType input /\
    cfg_type cfg = in_chartType input /\
    out_description out = in_description input /\
    title_text cfg = in_description input /\
    exists ds,
      datasets cfg = [ds] /\
      length (ds_data ds) = length (cfg_labels cfg) /\
      (backgroundColor ds = Colours palette <->
       in_chartType input = lit "pie" \/ in_chartType input = lit "doughnut").
Proof.
  intros n. split.
  - intros Hn. unfold _call, mock_data. fold n.
    destruct (includes _ (lit "revenue") || includes _ (lit "quarterly"));
      [eexists; reflexivity | ].
    destruct (includes _ (lit "growth") || includes _ (lit "trend"));
      [eexists; reflexivity | ].
    destruct (includes _ (lit "share") || includes _ (lit "market"));
      [eexists; reflexivity | ].
    unfold array_from. rewrite (proj2 (Z.leb_gt _ _) Hn).
    eexists; reflexivity.
  - intros out. unfold _call.
    destruct (mock_data random input) as [[[labels data] datasetLabel] | e]
      eqn:E; [ | discriminate].
    cbn [bind]. intros H. injection H as <-.
    cbn [out_type out_chartConfig out_description cfg_type title_text
         datasets cfg_labels].
    do 4 (split; [reflexivity | ]).
    eexists. split; [reflexivity | ]. cbn [ds_data backgroundColor]. split.
    + unfold mock_data in E.
      destruct (includes _ (lit "revenue") || includes _ (lit "quarterly"));
        [injection E as <- <- _; reflexivity | ].
      destruct (includes _ (lit "growth") || includes _ (lit "trend"));
        [injection E as <- <- _; reflexivity | ].
      destruct (includes _ (lit "share") || includes _ (lit "market"));
        [injection E as <- <- _; reflexivity | ].
      destruct (array_from _ _) as [ls | e] eqn:E1 in E; [ | discriminate].
      cbn [bind] in E.
      destruct (array_from _ random) as [ds | e] eqn:E2 in E;
        [ | discriminate].
      cbn [bind] in E. injection E as <- <- _.
      apply array_from_length in E1. apply array_from_length in E2.
      etransitivity; [exact E2 | symmetry; exact E1].
    + set (b := jsstring_eqb _ _ || jsstring_eqb _ _).
      assert (Hb : b = true <->
                   in_chartType input = lit "pie" \/
                   in_chartType input = lit "doughnut").
      { unfold b. rewrite orb_true_iff.
        split; (intros [H | H]; [left | right]);
          now apply jsstring_eqb_eq in H. }
      destruct b.
      * split; [intros _; now apply Hb | reflexivity].
      * split; [discriminate | ]. intros H. apply Hb in H. discriminate.
Qed.

(** X14.  For a description without a keyword of the mock series the
    generator makes [dataPoints] points, 4 when [dataPoints] is absent and
    none when it is negative: the labels are ["Label 1"], ["Label 2"], ...
    and the values are the random draws in order.  With [2^32] points or
    more it throws the error of the array construction. *)
Theorem chart_generic_points random input :
  plain_description (toLowerCase (in_description input)) ->
  let n := match in_dataPoints input with Some n => n | None => 4%Z end in
  ((n < 2 ^ 32)%Z ->
   exists out,
     _call random input = Ret out /\
     let cfg := out_chartConfig out in
     length (cfg_labels cfg) = Z.to_nat n /\
     (forall i, i < Z.to_nat n ->
        nth_error (cfg_labels cfg) i
        = Some (lit "Label " ++ JSNumber.decimal (Z.of_nat (i + 1)))) /\
     exists ds,
       datasets cfg = [ds] /\ ds_label ds = lit "Value" /\
       ds_data ds = map random (seq 0 (Z.to_nat n))) /\
  ((2 ^ 32 <= n)%Z -> _call random input = Throw invalid_array_length).
Proof.
  intros (H1 & H2 & H3 & H4 & H5 & H6) n.
  unfold _call, mock_data. rewrite H1, H2, H3, H4, H5, H6.
  cbn [orb]. cbv iota. fold n. unfold array_from. split; intros Hn.
  - rewrite (proj2 (Z.leb_gt _ _) Hn). cbn [bind].
    eexists. split; [reflexivity | ].
    cbn [out_chartConfig cfg_labels datasets].
    split; [now rewrite length_map, length_seq | ]. split.
    + intros i Hi.
      rewrite nth_error_map, nth_error_nth' with (d := 0)
        by (now rewrite length_seq).
      rewrite seq_nth by assumption. reflexivity.
    + eexists. repeat split.
  - rewrite (proj2 (Z.leb_le _ _) Hn). reflexivity.
Qed.

End ChartFacts.

Lemma chart_generic_points_witness :
  exists out,
    ChartJSTool._call (fun i => Z.of_nat (7 * i)) region_input = Ret out /\
    let cfg := ChartJSTool.out_chartConfig out in
    length (ChartJSTool.cfg_labels cfg) = 3 /\
    (forall i, i < 3 ->
       nth_error (ChartJSTool.cfg_labels cfg) i
       = Some (lit "Label " ++ JSNumber.decimal (Z.of_nat (i + 1)))) /\
    exists ds,
      ChartJSTool.datasets cfg = [ds] /\
      ChartJSTool.ds_label ds = lit "Value" /\
      ChartJSTool.ds_data ds = map (fun i => Z.of_nat (7 * i)) (seq 0 3).
Proof.
  apply (proj1 (@chart_generic_points (fun i => Z.of_nat (7 * i))
                  region_input ltac:(repeat split))).
  reflexivity.
Defined.

Lemma chart_output_shape_witness :
  exists out ds,
    ChartJSTool._call (fun i => Z.of_nat (7 * i)) pie_input = Ret out /\
    ChartJSTool.datasets (ChartJSTool.out_chartConfig out) = [ds] /\
    length (ChartJSTool.ds_data ds)
    = length (ChartJSTool.cfg_labels (ChartJSTool.out_chartConfig out)) /\
    ChartJSTool.backgroundColor ds
    = ChartJSTool.Colours ChartJSTool.palette.
Proof.
  destruct (@chart_output_shape (fun i => Z.of_nat (7 * i)) pie_input)
    as [Hret Hshape].
  destruct (Hret eq_refl) as [out Hout].
  destruct (Hshape out Hout) as (_ & _ & _ & _ & ds & Hd & Hl & Hc).
  exists out, ds. split; [exact Hout | ].
  split; [exact Hd | split; [exact Hl | ]].
  apply Hc. left. reflexivity.
Defined.

(* ===================================================================== *)
(** ** Properties of the client configuration *)
(* ===================================================================== *)

Section ClientFacts.
Import WeaviateClient.

Lemma remove_trailing_slash_none h :
  ends_with_slash h = false -> remove_trailing_slash h = h.
Proof.
  unfold ends_with_slash, remove_trailing_slash.
  destruct (rev h) as [ | c r]; [reflexivity | ]. now intros ->.
Qed.

Lemma remove_trailing_slash_one h :
  remove_trailing_slash (h ++ lit "/") = h.
Proof.
  unfold remove_trailing_slash. rewrite rev_app_distr. simpl.
  apply rev_involutive.
Qed.

Lemma startsWith_app s p q :
  startsWith s (p ++ q) = true -> startsWith s p = true.
Proof.
  revert s. induction p as [ | a p IH]; intros s; simpl.
  - now destruct s.
  - destruct s as [ | b s]; simpl; [discriminate | ].
    rewrite !andb_true_iff. intros [H1 H2]. split; [assumption | eauto].
Qed.

(** X15.  For an address made of ["http"] or ["https"], ["://"], a host
    and at most one closing slash, the client is given that scheme and that
    host; an address that does not start with ["http"] is taken as a host
    over ["http"], without one closing slash. *)
Theorem client_host_and_scheme :
  (forall sch h tail,
     sch = lit "http" \/ sch = lit "https" ->
     ends_with_slash h = false ->
     tail = [] \/ tail = lit "/" ->
     sanitizedHost (sch ++ lit "://" ++ h ++ tail) = h /\
     scheme (sch ++ lit "://" ++ h ++ tail) = sch) /\
  (forall url,
     startsWith url (lit "http") = false ->
     sanitizedHost url = remove_trailing_slash url /\
     scheme url = lit "http").
Proof.
  split.
  - intros sch h tail Hs Hh Ht.
    assert (Hrem : remove_trailing_slash (h ++ tail) = h).
    { destruct Ht as [-> | ->].
      - rewrite app_nil_r. now apply remove_trailing_slash_none.
      - apply remove_trailing_slash_one. }
    destruct Hs as [-> | ->]; unfold sanitizedHost, scheme; split;
      try reflexivity; exact Hrem.
  - intros url Hu. unfold sanitizedHost, scheme, remove_at_start, match_here,
      protocol, Str. cbn [mtch]. rewrite mtch_Lit, Hu. split; [reflexivity | ].
    destruct (startsWith url (lit "https")) eqn:E; [ | reflexivity].
    change (lit "https") with (lit "http" ++ lit "s") in E.
    apply startsWith_app in E. congruence.
Qed.

End ClientFacts.

Lemma client_host_and_scheme_witness :
  WeaviateClient.sanitizedHost (WeaviateClient.rawUrl None)
    = lit "localhost:8080" /\
  WeaviateClient.scheme (WeaviateClient.rawUrl None) = lit "http" /\
  WeaviateClient.sanitizedHost (lit "weaviate:8080/") = lit "weaviate:8080" /\
  WeaviateClient.scheme (lit "weaviate:8080/") = lit "http".
Proof.
  destruct client_host_and_scheme as [H1 H2].
  destruct (H1 (lit "http") (lit "localhost:8080") []) as [Ha Hb];
    [now left | reflexivity | now left | ].
  destruct (H2 (lit "weaviate:8080/")) as [Hc Hd]; [reflexivity | ].
  repeat split; assumption.
Defined.

(* ===================================================================== *)
(** ** Properties of the database setup *)
(* ===================================================================== *)

Section SetupFacts.
Import Setup.

Lemma object_calls_app a b :
  object_calls (a ++ b) = object_calls a ++ object_calls b.
Proof.
  induction a as [ | c a IH]; simpl; [reflexivity | ].
  destruct c; simpl; now rewrite IH.
Qed.

Lemma await_ready_spec sv : forall retries probe,
  (fst (await_ready sv retries probe) = 0 <->
   forall k, k < retries -> ready_at sv (probe + k) = false) /\
  (forall c, In c (snd (await_ready sv retries probe)) ->
             c = ReadyCheck \/ c = Wait) /\
  length (filter is_ready_check (snd (await_ready sv retries probe)))
    <= S retries /\
  object_calls (snd (await_ready sv retries probe)) = [].
Proof.
  induction retries as [ | r IH]; intros probe; simpl.
  - destruct (ready_at sv probe); simpl; repeat split; try lia;
      intros c [<- | []]; auto.
  - destruct (ready_at sv probe) eqn:E; simpl.
    + repeat split; try lia; try discriminate.
      * intros H. specialize (H 0 ltac:(lia)).
        rewrite Nat.add_0_r in H. congruence.
      * intros c [<- | []]; auto.
    + specialize (IH (S probe)).
      destruct (await_ready sv r (S probe)) as [remaining calls].
      simpl in *. destruct IH as (Hz & Hc & Hl & Ho).
      repeat split.
      * intros H k Hk. destruct k as [ | k].
        -- now rewrite Nat.add_0_r.
        -- replace (probe + S k) with (S (probe + k)) by lia.
           apply Hz; [assumption | lia].
      * intros H. apply Hz. intros k Hk.
        replace (S (probe + k)) with (probe + S k) by lia. apply H. lia.
      * intros c [<- | [<- | Hin]]; auto.
      * lia.
      * assumption.
Qed.

Lemma bounded_search (f : nat -> bool) : forall n,
  (forall k, k < n -> f k = false) \/ (exists k, k < n /\ f k = true).
Proof.
  induction n as [ | n [IH | (k & Hk & Hf)]].
  - left. intros k Hk. lia.
  - destruct (f n) eqn:E.
    + right. exists n. split; [lia | assumption].
    + left. intros k Hk. destruct (Nat.eq_dec k n) as [-> | Hne];
        [assumption | apply IH; lia].
  - right. exists k. split; [lia | assumption].
Qed.

Lemma insert_all_calls sv : forall data,
  (forall c, In c (fst (insert_all sv data)) ->
     match c with
     | Embed _ => True
     | CreateObject tn h v =>
         In (tn, h) data /\ embed_question sv (hit_question h) = Ret v
     | _ => False
     end) /\
  (snd (insert_all sv data) = Ret tt ->
   object_calls (fst (insert_all sv data)) = data).
Proof.
  induction data as [ | [tn h] data [IHc IHo]]; simpl.
  - split; [intros c [] | reflexivity].
  - destruct (embed_question sv (hit_question h)) as [v | e] eqn:Ev; simpl.
    + destruct (create_object sv tn h v) as [[] | e] eqn:Ec; simpl.
      * destruct (insert_all sv data) as [calls r]. simpl in *. split.
        -- intros c [<- | [<- | Hin]]; auto.
           specialize (IHc c Hin). destruct c; intuition.
        -- intros Hr. now rewrite IHo.
      * split; [ | discriminate].
        intros c [<- | [<- | []]]; auto.
    + split; [ | discriminate]. intros c [<- | []]. exact I.
Qed.

Lemma tenants_of_In data tn :
  In tn (tenants_of data) <-> In tn (map fst data).
Proof.
  unfold tenants_of, JSSet.elements.
  change (fold_left (fun s t => JSSet.add t s) (map fst data) JSSet.empty)
    with (add_all (map fst data) JSSet.empty).
  rewrite add_all_In. unfold JSSet.empty. simpl. tauto.
Qed.

Lemma tenants_of_NoDup data : NoDup (tenants_of data).
Proof.
  unfold tenants_of, JSSet.elements.
  change (fold_left (fun s t => JSSet.add t s) (map fst data) JSSet.empty)
    with (add_all (map fst data) JSSet.empty).
  apply add_all_NoDup. constructor.
Qed.

Lemma filter_ready_app h l :
  (forall c, In c l -> is_ready_check c = false) ->
  filter is_ready_check (h ++ l) = filter is_ready_check h.
Proof.
  intros H. rewrite filter_app.
  replace (filter is_ready_check l) with (@nil Call);
    [apply app_nil_r | ].
  induction l as [ | c l IH]; simpl; [reflexivity | ].
  rewrite (H c) by now left. apply IH. intros c' Hc. apply H. now right.
Qed.

(** The calls of a setup: those of the health check, then, when it passed,
    the schema request and what follows it. *)
Lemma setup_calls_split sv data :
  exists rest,
    fst (setupWeaviate sv data) = snd (await_ready sv 5 0) ++ rest /\
    (forall c, In c rest -> is_ready_check c = false) /\
    (fst (await_ready sv 5 0) = 0 ->
     rest = [] /\ snd (setupWeaviate sv data) = Throw not_responsive) /\
    (fst (await_ready sv 5 0) <> 0 -> exists rest', rest = GetSchema :: rest').
Proof.
  unfold setupWeaviate.
  destruct (await_ready sv 5 0) as [remaining health]. simpl fst. simpl snd.
  destruct (Nat.eqb_spec remaining 0) as [-> | Hne].
  { exists []. rewrite app_nil_r. repeat split; try tauto. intros c []. }
  pose proof (insert_all_calls sv data) as [Hins _].
  assert (Hready : forall l,
    (forall c, In c l ->
       match c with ReadyCheck => False | _ => True end) ->
    forall c, In c l -> is_ready_check c = false).
  { intros l H c Hc. specialize (H c Hc). now destruct c. }
  destruct (schema_classes sv) as [classes | e].
  2:{ exists [GetSchema]. repeat split; try tauto; eauto.
      intros c [<- | []]. reflexivity. }
  destruct (existsb _ (or_empty classes)).
  - destruct (delete_class sv _).
    2:{ eexists. split; [reflexivity | ]. repeat split; try tauto; eauto.
        intros c [<- | [<- | []]]; reflexivity. }
    destruct (create_class sv _).
    2:{ eexists. split; [reflexivity | ]. repeat split; try tauto; eauto.
        intros c [<- | [<- | [<- | []]]]; reflexivity. }
    destruct (create_tenants sv _).
    2:{ eexists. split; [reflexivity | ]. repeat split; try tauto; eauto.
        intros c [<- | [<- | [<- | [<- | []]]]]; reflexivity. }
    destruct (insert_all sv data) as [calls2 r2]. simpl in Hins.
    eexists. split; [reflexivity | ]. repeat split; try tauto; eauto.
    intros c [<- | [<- | [<- | [<- | Hin]]]]; try reflexivity.
    specialize (Hins c Hin). now destruct c.
  - destruct (create_class sv _).
    2:{ eexists. split; [reflexivity | ]. repeat split; try tauto; eauto.
        intros c [<- | [<- | []]]; reflexivity. }
    destruct (create_tenants sv _).
    2:{ eexists. split; [reflexivity | ]. repeat split; try tauto; eauto.
        intros c [<- | [<- | [<- | []]]]; reflexivity. }
    destruct (insert_all sv data) as [calls2 r2]. simpl in Hins.
    eexists. split; [reflexivity | ]. repeat split; try tauto; eauto.
    intros c [<- | [<- | [<- | Hin]]]; try reflexivity.
    specialize (Hins c Hin). now destruct c.
Qed.

(** X16.  The setup goes past its health check exactly when one of the
    first five ready checks succeeds.  Otherwise it throws the
    "not responsive" error after ready checks and waits only, also when the
    sixth ready check, made after the last wait, succeeds.  A setup makes
    at most six ready checks. *)
Theorem setup_health_check sv data :
  let calls := fst (setupWeaviate sv data) in
  (In GetSchema calls <-> exists k, k < 5 /\ ready_at sv k = true) /\
  ((forall k, k < 5 -> ready_at sv k = false) ->
   snd (setupWeaviate sv data) = Throw not_responsive /\
   forall c, In c calls -> c = ReadyCheck \/ c = Wait) /\
  length (filter is_ready_check calls) <= 6.
Proof.
  destruct (await_ready_spec sv 5 0) as (Hz & Hc & Hl & _).
  destruct (setup_calls_split sv data) as (rest & Hsplit & Hnr & Hfail & Hpass).
  simpl in Hz.
  intros calls. unfold calls. rewrite Hsplit. split; [split | split].
  - intros Hin. destruct (bounded_search (ready_at sv) 5) as [H | H];
      [ | assumption].
    apply Hz in H. destruct (Hfail H) as [-> _]. rewrite app_nil_r in Hin.
    apply Hc in Hin. destruct Hin; discriminate.
  - intros (k & Hk & Hr).
    destruct Hpass as [rest' ->].
    + intros H0. rewrite Hz in H0. specialize (H0 k Hk). congruence.
    + rewrite in_app_iff. right. now left.
  - intros H. apply Hz in H. destruct (Hfail H) as [-> Hthrow].
    split; [exact Hthrow | ]. rewrite app_nil_r. exact Hc.
  - rewrite filter_ready_app by exact Hnr. exact Hl.
Qed.

End SetupFacts.

Lemma setup_health_check_witness :
  Setup.ready_at late_services 5 = true /\
  snd (Setup.setupWeaviate late_services Fixtures.seedData)
    = Throw Setup.not_responsive /\
  forall c, In c (fst (Setup.setupWeaviate late_services Fixtures.seedData)) ->
            c = Setup.ReadyCheck \/ c = Setup.Wait.
Proof.
  split; [reflexivity | ].
  apply (proj1 (proj2 (setup_health_check late_services Fixtures.seedData))).
  intros k Hk. do 5 (destruct k as [ | k]; [reflexivity | ]). lia.
Defined.

Section SetupSeeding.
Import Setup.

Lemma insert_all_prefix sv : forall data,
  exists rest,
    data = object_calls (fst (insert_all sv data)) ++ rest /\
    (snd (insert_all sv data) = Ret tt -> rest = []) /\
    (rest <> [] -> exists e, snd (insert_all sv data) = Throw e).
Proof.
  induction data as [ | [tn h] data (rest & Hd & Hok & Hko)]; simpl.
  - exists []. repeat split. congruence.
  - destruct (embed_question sv (hit_question h)) as [v | e]; simpl.
    + destruct (create_object sv tn h v) as [[] | e]; simpl.
      * destruct (insert_all sv data) as [calls r]. simpl in *.
        exists rest. repeat split; [congruence | assumption | assumption].
      * exists data. repeat split; [discriminate | eauto].
    + exists ((tn, h) :: data). repeat split; [discriminate | eauto].
Qed.

Lemma health_has_no_objects sv :
  object_calls (snd (await_ready sv 5 0)) = [].
Proof. apply await_ready_spec. Qed.

(** X17.  A setup that returns has created the objects of all the records,
    in their order, each under its tenant and with the vector the embedding
    service returned for its question.  The tenants were created before,
    in one call, right after the class: each tenant once, every tenant of a
    record among them.  The old class was deleted exactly when the schema
    listed it. *)
Theorem setup_success_calls sv data :
  snd (setupWeaviate sv data) = Ret tt ->
  let calls := fst (setupWeaviate sv data) in
  let name := WeaviateClient.COLLECTION_NAME in
  object_calls calls = data /\
  (forall tn h v, In (CreateObject tn h v) calls ->
     embed_question sv (hit_question h) = Ret v /\
     In tn (tenants_of data)) /\
  NoDup (tenants_of data) /\
  (exists before after,
     calls = before ++ CreateClass name :: CreateTenants (tenants_of data)
                    :: after /\
     object_calls before = []) /\
  (In (DeleteClass name) calls <->
   exists classes, schema_classes sv = Ret (Some classes) /\ In name classes).
Proof.
  pose proof (health_has_no_objects sv) as Hho.
  destruct (await_ready_spec sv 5 0) as (_ & Hhc & _ & _).
  pose proof (insert_all_calls sv data) as [Hins Hobj].
  unfold setupWeaviate.
  destruct (await_ready sv 5 0) as [remaining health]. simpl in Hho, Hhc.
  destruct (Nat.eqb remaining 0); [discriminate | ].
  destruct (schema_classes sv) as [classes | e]; [ | discriminate].
  assert (Hex : existsb (jsstring_eqb WeaviateClient.COLLECTION_NAME)
                        (or_empty classes) = true <->
                exists cl, Ret classes = Ret (Some cl) /\
                           In WeaviateClient.COLLECTION_NAME cl).
  { rewrite existsb_exists. split.
    - intros (x & Hin & Heq). apply jsstring_eqb_eq in Heq. subst x.
      destruct classes as [cl | ]; [ | contradiction]. eauto.
    - intros (cl & Hcl & Hin). injection Hcl as ->.
      exists WeaviateClient.COLLECTION_NAME. split; [assumption | ].
      apply jsstring_eqb_refl. }
  assert (Hobjs : forall tn h v,
            In (CreateObject tn h v) (fst (insert_all sv data)) ->
            embed_question sv (hit_question h) = Ret v /\
            In tn (tenants_of data)).
  { intros tn h v Hin. destruct (Hins _ Hin) as [Hd He].
    split; [assumption | ]. apply tenants_of_In.
    change tn with (fst (tn, h)). now apply in_map. }
  assert (Hhealth : forall c, In c health ->
                      forall tn h v, c <> CreateObject tn h v).
  { intros c Hc tn h v ->. destruct (Hhc _ Hc); discriminate. }
  assert (Hhd : ~ In (DeleteClass WeaviateClient.COLLECTION_NAME) health).
  { intros Hc. destruct (Hhc _ Hc); discriminate. }
  assert (Hid : ~ In (DeleteClass WeaviateClient.COLLECTION_NAME)
                      (fst (insert_all sv data))).
  { intros Hin. apply (Hins _ Hin). }
  destruct (existsb _ (or_empty classes)) eqn:Eex.
  - destruct (delete_class sv _) as [[] | e]; [ | discriminate].
    destruct (create_class sv _) as [[] | e]; [ | discriminate].
    destruct (create_tenants sv _) as [[] | e]; [ | discriminate].
    destruct (insert_all sv data) as [calls2 r2]. simpl fst in *.
    simpl snd in *. intros ->. cbv zeta. split; [ | split; [ | split; [ | split]]].
    + rewrite object_calls_app. simpl. rewrite Hho, Hobj; reflexivity.
    + intros tn h v Hin. apply in_app_iff in Hin.
      destruct Hin as [Hin | [Hin | [Hin | [Hin | [Hin | Hin]]]]];
        try discriminate.
      * exfalso. now apply (Hhealth _ Hin tn h v).
      * now apply Hobjs.
    + apply tenants_of_NoDup.
    + exists (health ++ [GetSchema;
                          DeleteClass WeaviateClient.COLLECTION_NAME]), calls2.
      split.
      * rewrite <- app_assoc. reflexivity.
      * rewrite object_calls_app, Hho. reflexivity.
    + split; [intros _; now apply Hex | ].
      intros _. rewrite in_app_iff. right. right. now left.
  - destruct (create_class sv _) as [[] | e]; [ | discriminate].
    destruct (create_tenants sv _) as [[] | e]; [ | discriminate].
    destruct (insert_all sv data) as [calls2 r2]. simpl fst in *.
    simpl snd in *. intros ->. cbv zeta. split; [ | split; [ | split; [ | split]]].
    + rewrite object_calls_app. simpl. rewrite Hho, Hobj; reflexivity.
    + intros tn h v Hin. apply in_app_iff in Hin.
      destruct Hin as [Hin | [Hin | [Hin | [Hin | Hin]]]];
        try discriminate.
      * exfalso. now apply (Hhealth _ Hin tn h v).
      * now apply Hobjs.
    + apply tenants_of_NoDup.
    + exists (health ++ [GetSchema]), calls2. split.
      * rewrite <- app_assoc. reflexivity.
      * rewrite object_calls_app, Hho. reflexivity.
    + split.
      * intros Hin. apply in_app_iff in Hin.
        destruct Hin as [Hin | [Hin | [Hin | [Hin | Hin]]]];
          try discriminate; contradiction.
      * intros H. apply Hex in H. discriminate.
Qed.

(** X18.  The objects a setup tries to create are a prefix of the records,
    in their order: a setup that returns has gone through all of them, a
    setup that stops early has thrown, and nothing after the failing record
    is attempted. *)
Theorem setup_seeds_a_prefix sv data :
  exists rest,
    data = object_calls (fst (setupWeaviate sv data)) ++ rest /\
    (snd (setupWeaviate sv data) = Ret tt -> rest = []) /\
    (rest <> [] -> exists e, snd (setupWeaviate sv data) = Throw e).
Proof.
  pose proof (health_has_no_objects sv) as Hho.
  destruct (insert_all_prefix sv data) as (rest & Hd & Hok & Hko).
  unfold setupWeaviate.
  destruct (await_ready sv 5 0) as [remaining health]. simpl in Hho.
  assert (Hall : forall l e,
            object_calls l = [] ->
            exists rest0,
              data = object_calls (fst (l, @Throw unit e)) ++ rest0 /\
              (snd (l, @Throw unit e) = Ret tt -> rest0 = []) /\
              (rest0 <> [] -> exists e0, snd (l, @Throw unit e) = Throw e0)).
  { intros l e Hl. exists data. simpl. rewrite Hl.
    repeat split; [discriminate | eauto]. }
  destruct (Nat.eqb remaining 0); [now apply Hall | ].
  destruct (schema_classes sv) as [classes | e].
  2:{ apply Hall. now rewrite object_calls_app, Hho. }
  destruct (existsb _ (or_empty classes)).
  - destruct (delete_class sv _) as [[] | e].
    2:{ apply Hall. now rewrite object_calls_app, Hho. }
    destruct (create_class sv _) as [[] | e].
    2:{ apply Hall. now rewrite object_calls_app, Hho. }
    destruct (create_tenants sv _) as [[] | e].
    2:{ apply Hall. now rewrite object_calls_app, Hho. }
    destruct (insert_all sv data) as [calls2 r2]. simpl in *.
    exists rest. rewrite object_calls_app, Hho. simpl.
    repeat split; assumption.
  - destruct (create_class sv _) as [[] | e].
    2:{ apply Hall. now rewrite object_calls_app, Hho. }
    destruct (create_tenants sv _) as [[] | e].
    2:{ apply Hall. now rewrite object_calls_app, Hho. }
    destruct (insert_all sv data) as [calls2 r2]. simpl in *.
    exists rest. rewrite object_calls_app, Hho. simpl.
    repeat split; assumption.
Qed.

End SetupSeeding.

Lemma setup_success_calls_witness :
  object_calls (fst (Setup.setupWeaviate good_services Fixtures.seedData))
    = Fixtures.seedData /\
  Setup.tenants_of Fixtures.seedData
    = [Fixtures.company_a; Fixtures.company_b; Fixtures.research_team].
Proof.
  destruct (@setup_success_calls good_services Fixtures.seedData eq_refl)
    as (H & _).
  split; [exact H | reflexivity].
Defined.

Lemma setup_seeds_a_prefix_witness :
  exists rest,
    Fixtures.seedData
    = object_calls (fst (Setup.setupWeaviate picky_services
                           Fixtures.seedData)) ++ rest /\
    exists e,
      snd (Setup.setupWeaviate picky_services Fixtures.seedData) = Throw e.
Proof.
  destruct (@setup_seeds_a_prefix picky_services Fixtures.seedData)
    as (rest & Hd & _ & Hko).
  exists rest. split; [exact Hd | ].
  apply Hko. intros Hr. rewrite Hr in Hd. revert Hd.
  vm_compute. discriminate.
Defined.

(** With a store that rejects the objects of [company_b], the two records
    of [company_a] are created, the third is attempted, and the setup
    throws. *)
Example setup_stops_at_rejected_record :
  object_calls (fst (Setup.setupWeaviate picky_services Fixtures.seedData))
    = firstn 3 Fixtures.seedData /\
  snd (Setup.setupWeaviate picky_services Fixtures.seedData)
    = Throw Fixtures.search_failed.
Proof. vm_compute. split; reflexivity. Qed.
(* ===================================================================== *)
(** ** Properties of the clean-up of the model's message *)
(* ===================================================================== *)

(** Greedy white space: [\s*] followed by nothing takes all of it. *)
Lemma ws_star_greedy : forall s,
  mtch ws_star s [] (fun s1 cs1 => Some (s1, cs1)) = Some (trimStart s, []).
Proof.
  intros s. unfold ws_star. cbn [mtch].
  remember (length s) as fuel eqn:Hf.
  assert (Hle : length s <= fuel) by lia. clear Hf.
  revert s Hle. induction fuel as [ | f IH]; intros s Hle.
  - destruct s; [reflexivity | simpl in Hle; lia].
  - destruct s as [ | c s]; [reflexivity | ].
    cbn [mtch trimStart]. destruct (is_space c); [ | reflexivity].
    simpl length. rewrite (proj2 (Nat.ltb_lt _ _)) by lia.
    rewrite IH by (simpl in Hle; lia). reflexivity.
Qed.

(** A fence is matched where the text starts with it, with the white
    space after it. *)
Lemma match_fence p s :
  match_here (Seq (Lit p) ws_star) s
  = if startsWith s p then Some (trimStart (skipn (length p) s), [])
    else None.
Proof.
  unfold match_here. cbn [mtch]. rewrite mtch_Lit.
  destruct (startsWith s p); [apply ws_star_greedy | reflexivity].
Qed.

Lemma remove_all_from_skip r : forall x fuel rest,
  (forall c t, In c x -> match_here r (c :: t) = None) ->
  remove_all_from (length x + fuel) r (x ++ rest)
  = x ++ remove_all_from fuel r rest.
Proof.
  induction x as [ | c x IH]; intros fuel rest H; [reflexivity | ].
  simpl. rewrite (H c (x ++ rest)) by now left.
  rewrite IH; [reflexivity | ]. intros c' t Hc. apply H. now right.
Qed.

Lemma trimStart_spaces w s :
  forallb is_space w = true -> trimStart (w ++ s) = trimStart s.
Proof.
  induction w as [ | c w IH]; simpl; [reflexivity | ].
  intros H. apply andb_true_iff in H. destruct H as [-> H]. auto.
Qed.

Lemma trimEnd_spaces s w :
  forallb is_space w = true -> trimEnd (s ++ w) = trimEnd s.
Proof.
  intros H. unfold trimEnd. rewrite rev_app_distr.
  rewrite trimStart_spaces; [reflexivity | ].
  rewrite forallb_forall in *. intros c Hc. apply H. now apply in_rev.
Qed.

Lemma trimEnd_snoc s c : is_space c = false -> trimEnd (s ++ [c]) = s ++ [c].
Proof.
  intros Hc. unfold trimEnd. rewrite rev_app_distr.
  change (rev [c] ++ rev s) with (c :: rev s).
  cbn [trimStart]. rewrite Hc. cbn [rev]. now rewrite rev_involutive.
Qed.

Lemma startsWith_prefix : forall p s, startsWith (p ++ s) p = true.
Proof.
  induction p as [ | a p IH]; intros s; simpl; [now destruct s | ].
  now rewrite Ascii.eqb_refl, IH.
Qed.

Lemma includes_app_r s p : forall x, includes (x ++ p ++ s) p = true.
Proof.
  induction x as [ | c x IH].
  - simpl app. pose proof (startsWith_prefix p s) as H.
    destruct (p ++ s); simpl; simpl in H; now rewrite H.
  - simpl. rewrite IH. apply orb_true_r.
Qed.

(** X19.  From a message of the model made of an opening [```json] fence,
    an answer and a closing fence, with white space around the answer, the
    clean-up keeps the answer alone, when the answer has no backtick and no
    white space at its ends.  This is the text given to [JSON.parse]. *)
Theorem routing_content_unwraps_fence w1 a inner w2 :
  let answer := a :: inner in
  forallb is_space w1 = true -> forallb is_space w2 = true ->
  forallb (fun c => negb (is_backtick c)) answer = true ->
  is_space a = false -> trimEnd answer = answer ->
  routing_content (lit "```json" ++ w1 ++ answer ++ w2 ++ backticks)
  = answer.
Proof.
  intros answer Hw1 Hw2 Hnb Ha Hend.
  set (content := lit "```json" ++ w1 ++ answer ++ w2 ++ backticks).
  assert (Hnofence : forall p c t,
            In c (answer ++ w2) ->
            match_here (Seq (Lit ("`"%char :: p)) ws_star) (c :: t) = None).
  { intros p c t Hc. rewrite match_fence. cbn [startsWith].
    replace (Ascii.eqb "`" c) with false; [reflexivity | ].
    symmetry. apply in_app_iff in Hc. destruct Hc as [Hc | Hc].
    - rewrite forallb_forall in Hnb. specialize (Hnb c Hc).
      unfold is_backtick in Hnb. apply negb_true_iff in Hnb.
      now rewrite Ascii.eqb_sym.
    - rewrite forallb_forall in Hw2. specialize (Hw2 c Hc).
      destruct (Ascii.eqb_spec "`"%char c) as [<- | ]; [ | reflexivity].
      discriminate. }
  assert (Htrim : trim content = content).
  { unfold content. change (lit "```json") with ("`"%char :: lit "``json").
    rewrite <- app_comm_cons, trim_trimEnd by reflexivity.
    rewrite app_comm_cons, !app_assoc.
    unfold backticks. change (lit "```") with (lit "``" ++ ["`"%char]).
    rewrite app_assoc. now apply trimEnd_snoc. }
  assert (Hrest : trimStart (w1 ++ answer ++ w2 ++ backticks)
                  = answer ++ w2 ++ backticks).
  { rewrite trimStart_spaces by assumption. unfold answer. simpl.
    now rewrite Ha. }
  assert (H1 : remove_all fence_json content = answer ++ w2 ++ backticks).
  { unfold remove_all, fence_json, Str.
    cbn [remove_all_from]. rewrite match_fence.
    assert (Hsw : startsWith content (lit "```json") = true)
      by apply startsWith_prefix.
    assert (Hsk : skipn (length (lit "```json")) content
                  = w1 ++ answer ++ w2 ++ backticks) by reflexivity.
    rewrite Hsw, Hsk, Hrest.
    assert (Hlt : length (answer ++ w2 ++ backticks) < length content).
    { unfold content. rewrite !length_app. simpl. lia. }
    rewrite (proj2 (Nat.ltb_lt _ _) Hlt).
    replace (length content)
      with (length (answer ++ w2) + (7 + length w1 + 3))
      by (unfold content, backticks; rewrite !length_app; simpl; lia).
    rewrite (app_assoc answer w2 backticks).
    rewrite remove_all_from_skip by (intros; now apply Hnofence).
    f_equal. }
  assert (H2 : remove_all fence (answer ++ w2 ++ backticks) = answer ++ w2).
  { unfold remove_all, fence, Str.
    rewrite (app_assoc answer w2 backticks).
    replace (S (length ((answer ++ w2) ++ backticks)))
      with (length (answer ++ w2) + 4)
      by (unfold backticks; rewrite !length_app; simpl; lia).
    rewrite remove_all_from_skip by (intros; now apply Hnofence).
    rewrite <- (app_nil_r (answer ++ w2)) at 2. f_equal. }
  unfold routing_content. rewrite Htrim.
  replace (includes content backticks) with true.
  2:{ symmetry. unfold content.
      change (lit "```json" ++ w1 ++ answer ++ w2 ++ backticks)
        with ([] ++ backticks ++ (lit "json" ++ w1 ++ answer ++ w2
                                    ++ backticks)).
      apply includes_app_r. }
  rewrite H1, H2. unfold trim. rewrite trimEnd_spaces by assumption.
  rewrite Hend. unfold answer. simpl. now rewrite Ha.
Qed.

Lemma routing_content_unwraps_fence_witness :
  routing_content fenced_answer = lit "{needsChart: true}".
Proof.
  apply (@routing_content_unwraps_fence [nl] "{"%char
           (lit "needsChart: true}") [nl]); reflexivity.
Defined.
